(** * tensorpack/dataflow/prefetch.py

    A shallow embedding of the prefetching data flows: the worker processes
    [PrefetchProcess] and [PrefetchProcessZMQ], and the two coordinators
    [PrefetchData] (a bounded [multiprocessing.Queue]) and [PrefetchDataZMQ]
    (a ZeroMQ push/pull pipe).

    Python integers are [Z].  Generators are state machines with an explicit
    [next] step.  Operations that block (a [put] on a full queue, a [get] on an
    empty one) are steps that are not enabled.  Processes run interleaved: a
    schedule is a list of labels saying who moves next. *)

From Stdlib Require Import ZArith Lia Bool Ascii String.
From stdpp Require Import base option list.

Local Open Scope Z_scope.

(** ** The wrapped data flow

    [ds] is any [DataFlow]; the base class lives in [dataflow/base.py], so the
    interface is a type class.  [St] is the state of the instance (its random
    generator, its position), [Dp] the type of a data point.

    - [ds_size] is [ds.size()]; [None] stands for [NotImplementedError];
    - [ds_reset_state] is [ds.reset_state()];
    - [ds_get_data] is the call [ds.get_data()], which opens a generator over
      the instance;
    - [ds_next] is [next] on that generator: a data point, or [None] for
      [StopIteration], with the state of the instance afterwards. *)
Class DataFlow (Dp St : Type) := {
  ds_size : St -> option Z;
  ds_reset_state : St -> St;
  ds_get_data : St -> St;
  ds_next : St -> option Dp * St
}.

(** One pass over a data flow: the data points one generator yields until it
    is exhausted, and the state it leaves. *)
Inductive one_pass {Dp St} `{DataFlow Dp St} : St -> list Dp -> St -> Prop :=
| pass_done s s' :
    ds_next s = (None, s') -> one_pass s [] s'
| pass_more s dp s' dps s'' :
    ds_next s = (Some dp, s') -> one_pass s' dps s'' ->
    one_pass s (dp :: dps) s''.

(** The same, as a function with fuel: [None] when the pass is longer than
    [fuel] data points. *)
Fixpoint pass_of {Dp St} `{DataFlow Dp St} (fuel : nat) (s : St)
  : option (list Dp * St) :=
  match fuel with
  | O => None
  | S fuel' =>
      match ds_next s with
      | (None, s') => Some ([], s')
      | (Some dp, s') =>
          match pass_of fuel' s' with
          | Some (dps, s'') => Some (dp :: dps, s'')
          | None => None
          end
      end
  end.

(** What a consumer reading the data flow directly gets in one pass:
    [reset_state()] once, then one iteration of [get_data()]. *)
Definition direct_pass {Dp St} `{DataFlow Dp St} (s0 : St) (dps : list Dp)
  : Prop :=
  exists s', one_pass (ds_get_data (ds_reset_state s0)) dps s'.

(** Passes in a row: each one opens a new generator on the state the one
    before has left; nothing resets the data flow in between. *)
Inductive passes {Dp St} `{DataFlow Dp St}
  : St -> list (list Dp) -> St -> Prop :=
| passes_none s : passes s [] s
| passes_more s dps s1 dpss s2 :
    one_pass (ds_get_data s) dps s1 -> passes s1 dpss s2 ->
    passes s (dps :: dpss) s2.

(** ** [multiprocessing.Queue]

    A bounded FIFO shared by the workers and the coordinator.  As in Python,
    [maxsize <= 0] means no bound.  [put] on a full queue and [get] on an
    empty one block: they return [None]. *)
Module Queue.
Section Queue.
Context {Dp : Type}.

Record t := mk { maxsize : Z; items : list Dp }.

Definition new (maxsize : Z) : t := {| maxsize := maxsize; items := [] |}.

Definition full (q : t) : bool :=
  (0 <? maxsize q) && (maxsize q <=? Z.of_nat (length (items q))).

Definition put (dp : Dp) (q : t) : option t :=
  if full q then None
  else Some {| maxsize := maxsize q; items := items q ++ [dp] |}.

Definition get (q : t) : option (Dp * t) :=
  match items q with
  | [] => None
  | dp :: rest => Some (dp, {| maxsize := maxsize q; items := rest |})
  end.
End Queue.
Arguments t : clear implicits.
End Queue.

(** ** [PrefetchProcess]

    The worker process.  [run] never returns to its caller, so it is a step
    function on the program counter of the process. *)
Module PrefetchProcess.
Section PrefetchProcess.
Context {Dp St : Type} `{DataFlow Dp St}.

(** Where the process is in [run]. *)
Inductive pc :=
| AtReset              (* about to run [self.ds.reset_state()] *)
| AtWhile              (* at [while True:], about to call [get_data()] *)
| AtFor                (* at [for dp in ...], about to ask for the next dp *)
| AtPut (dp : Dp)      (* holding [dp], about to [self.queue.put(dp)] *)
| Returned.            (* [run] has returned: the process is over *)

(** What the process does that others can see. *)
Inductive event :=
| EvReset
| EvPut (dp : Dp).

(** A started process: its own copy of [ds], its program counter, and the
    history of its events (oldest first). *)
Record t := mk { ds : St; at_ : pc; log : list event }.

(** [Process.start()]: the child begins [run] on its copy of [ds]. *)
Definition start (s : St) : t := {| ds := s; at_ := AtReset; log := [] |}.

(** One step of [run] against the shared queue.  [None]: no step, the
    process is blocked in [put] or is over. *)
Definition run (w : t) (q : Queue.t Dp) : option (t * Queue.t Dp) :=
  match at_ w with
  | AtReset =>
      Some ({| ds := ds_reset_state (ds w); at_ := AtWhile;
               log := log w ++ [EvReset] |}, q)
  | AtWhile =>
      Some ({| ds := ds_get_data (ds w); at_ := AtFor; log := log w |}, q)
  | AtFor =>
      match ds_next (ds w) with
      | (Some dp, s') => Some ({| ds := s'; at_ := AtPut dp; log := log w |}, q)
      | (None, s') => Some ({| ds := s'; at_ := AtWhile; log := log w |}, q)
      end
  | AtPut dp =>
      match Queue.put dp q with
      | Some q' =>
          Some ({| ds := ds w; at_ := AtFor; log := log w ++ [EvPut dp] |}, q')
      | None => None
      end
  | Returned => None
  end.

(** The states a process goes through, whatever the others do to the queue
    between its steps. *)
Inductive reachable (s : St) : t -> Prop :=
| reach_start : reachable s (start s)
| reach_step w q w' q' :
    reachable s w -> run w q = Some (w', q') -> reachable s w'.

(** The data points a history has put, in order. *)
Definition puts (l : list event) : list Dp :=
  omap (fun e => match e with EvPut dp => Some dp | EvReset => None end) l.

Definition is_reset (e : event) : bool :=
  match e with EvReset => true | EvPut _ => false end.

(** How many times a history has reset the data flow. *)
Definition resets (l : list event) : nat :=
  length (List.filter is_reset l).

(** The worker started on [s0] is still in its first pass, which is to yield
    [dps]: what it has put and what the open generator has left make up
    [dps]. *)
Definition in_first_pass (s0 : St) (dps : list Dp) (w : t) : Prop :=
  match at_ w with
  | AtReset => ds w = s0 /\ puts (log w) = []
  | AtWhile => ds w = ds_reset_state s0 /\ puts (log w) = []
  | AtFor =>
      exists rest s', dps = puts (log w) ++ rest /\ one_pass (ds w) rest s'
  | AtPut dp =>
      exists rest s',
        dps = puts (log w) ++ dp :: rest /\ one_pass (ds w) rest s'
  | Returned => False
  end.
End PrefetchProcess.
Arguments t : clear implicits.
Arguments pc : clear implicits.
Arguments event : clear implicits.
End PrefetchProcess.

(** ** [PrefetchData]

    The coordinator over a [multiprocessing.Queue].  The parent process has a
    heap of data flow objects; [ds] is a reference into it.  Every
    [PrefetchProcess] object the constructor builds holds that same reference.
    [Process.start()] forks: the child runs on a copy of the object its
    reference points to, taken from the parent's heap at that moment. *)
Module PrefetchData.
Section PrefetchData.
Context {Dp St : Type} `{DataFlow Dp St}.

(** The parent's side of a worker, [PrefetchProcess(self.ds, self.queue)]:
    the reference it was given. *)
Record handle := mk_handle { h_ds : nat }.

(** The fields of the coordinator object. *)
Record t := mk {
  ds : nat;
  _size : Z;
  nr_proc : Z;
  nr_prefetch : Z;
  procs : list handle
}.

(** The generator [get_data()] returns: [k] runs over [itertools.count()]. *)
Inductive pulled :=
| StopIteration
| Blocked
| Yield (dp : Dp) (k' : Z) (q' : Queue.t Dp).

(** [next] on the generator of [get_data], at counter [k]. *)
Definition get_data (size : Z) (k : Z) (q : Queue.t Dp) : pulled :=
  if (0 <? size) && (size <=? k) then StopIteration
  else match Queue.get q with
       | Some (dp, q') => Yield dp (k + 1) q'
       | None => Blocked
       end.

(** The consumer pulls up to [n] times, from [k], as long as the queue has
    something for it: what it got, where the generator and the queue are,
    and whether the generator has stopped. *)
Fixpoint pull (n : nat) (size k : Z) (q : Queue.t Dp)
  : list Dp * Z * Queue.t Dp * bool :=
  match n with
  | O => ([], k, q, false)
  | S n' =>
      match get_data size k q with
      | StopIteration => ([], k, q, true)
      | Blocked => ([], k, q, false)
      | Yield dp k' q' =>
          let '(dps, k'', q'', stop) := pull n' size k' q' in
          (dp :: dps, k'', q'', stop)
      end
  end.

(** The coordinator, its workers and the queue between them. *)
Record system := mk_system {
  heap : nat -> St;                       (* the parent's objects *)
  self : t;
  workers : list (PrefetchProcess.t Dp St);  (* the started children *)
  queue : Queue.t Dp;
  k : Z;                                  (* the consumer's generator *)
  out : list Dp;                          (* what it has yielded, in order *)
  stopped : bool                          (* it has raised StopIteration *)
}.

(** [x.start()] for a handle: fork on the parent's heap. *)
Definition start (hp : nat -> St) (h : handle) : PrefetchProcess.t Dp St :=
  PrefetchProcess.start (hp (h_ds h)).

(** [PrefetchData(ds, nr_prefetch, nr_proc)], then a first call of
    [get_data()], whose counter starts at 0.  [ensure_proc_terminate] only
    registers what is to happen when the parent exits. *)
Definition __init__ (hp : nat -> St) (ds : nat) (nr_prefetch nr_proc : Z)
  : system :=
  let size := match ds_size (hp ds) with Some n => n | None => -1 end in
  let procs := replicate (Z.to_nat nr_proc) {| h_ds := ds |} in
  {| heap := hp;
     self := {| ds := ds; _size := size; nr_proc := nr_proc;
                nr_prefetch := nr_prefetch; procs := procs |};
     workers := map (start hp) procs;
     queue := Queue.new nr_prefetch;
     k := 0; out := []; stopped := false |}.

(** Who moves next. *)
Inductive label :=
| Work (i : nat)     (* worker [i] makes one step of [run] *)
| Pull.              (* the consumer asks the generator for the next dp *)

Definition step (l : label) (st : system) : option system :=
  match l with
  | Work i =>
      w ← workers st !! i;
      '(w', q') ← PrefetchProcess.run w (queue st);
      Some {| heap := heap st; self := self st;
              workers := <[i := w']> (workers st);
              queue := q'; k := k st; out := out st;
              stopped := stopped st |}
  | Pull =>
      if stopped st then None
      else match get_data (_size (self st)) (k st) (queue st) with
           | StopIteration =>
               Some {| heap := heap st; self := self st;
                       workers := workers st; queue := queue st;
                       k := k st; out := out st; stopped := true |}
           | Blocked => None
           | Yield dp k' q' =>
               Some {| heap := heap st; self := self st;
                       workers := workers st; queue := q';
                       k := k'; out := out st ++ [dp];
                       stopped := false |}
           end
  end.

(** A schedule runs while every label it names is enabled. *)
Fixpoint exec (sched : list label) (st : system) : option system :=
  match sched with
  | [] => Some st
  | l :: sched' => st' ← step l st; exec sched' st'
  end.

(** How many steps a schedule gives worker [i]. *)
Definition turns (i : nat) (sched : list label) : nat :=
  length (List.filter
            (fun l => match l with Work j => Nat.eqb i j | Pull => false end)
            sched).

(** [n] steps of a worker that never finds the queue full: its state, and
    what it has put. *)
Fixpoint alone (n : nat) (w : PrefetchProcess.t Dp St)
  : option (PrefetchProcess.t Dp St) :=
  match n with
  | O => Some w
  | S n' =>
      '(w', _) ← PrefetchProcess.run w (Queue.new 0);
      alone n' w'
  end.

(** The schedule that serves the consumer one data point at a time from a
    single worker: the worker resets and opens its generator, then for each
    data point it produces it and puts it, and the consumer pulls it. *)
Definition serve (dps : list Dp) : list label :=
  [Work 0; Work 0] ++ concat (map (fun _ => [Work 0; Work 0; Pull]) dps).

(** With a single worker, what the consumer has got and what waits in the
    queue is what the worker has put. *)
Definition conserved (s0 : St) (st : system) : Prop :=
  exists w, workers st = [w] /\
            PrefetchProcess.reachable s0 w /\
            out st ++ Queue.items (queue st)
            = PrefetchProcess.puts (PrefetchProcess.log w).

(** The generator counts what it has yielded, never goes past a positive
    size, and stops only when it has reached one. *)
Definition counted (st : system) : Prop :=
  k st = Z.of_nat (length (out st)) /\
  (0 < _size (self st) -> k st <= _size (self st)) /\
  (stopped st = true -> 0 < _size (self st) <= k st).

(** The queue never holds more than a positive bound. *)
Definition bounded (st : system) : Prop :=
  0 < Queue.maxsize (queue st) ->
  Z.of_nat (length (Queue.items (queue st))) <= Queue.maxsize (queue st).

(** Everything the workers have put, worker by worker. *)
Definition all_puts (ws : list (PrefetchProcess.t Dp St)) : list Dp :=
  concat (map (fun w => PrefetchProcess.puts (PrefetchProcess.log w)) ws).
End PrefetchData.
Arguments t : clear implicits.
Arguments system : clear implicits.
Arguments pulled : clear implicits.
End PrefetchData.

(** ** Strings and [uuid]

    [str.rstrip], [str.format] and slicing on Python strings, and the parts of
    the standard [uuid] module the pipe name is built from. *)

(** [s.rstrip(c)] for a single character [c]. *)
Fixpoint rstrip (c : ascii) (s : string) : string :=
  match s with
  | EmptyString => EmptyString
  | String a rest =>
      match rstrip c rest with
      | EmptyString =>
          if Ascii.eqb a c then EmptyString else String a EmptyString
      | rest' => String a rest'
      end
  end.

(** The hex digit of [d], for [0 <= d < 16]. *)
Definition hex_digit (d : Z) : ascii :=
  match d with
  | 0 => "0" | 1 => "1" | 2 => "2" | 3 => "3" | 4 => "4" | 5 => "5"
  | 6 => "6" | 7 => "7" | 8 => "8" | 9 => "9" | 10 => "a" | 11 => "b"
  | 12 => "c" | 13 => "d" | 14 => "e" | _ => "f"
  end%char.

(** ['%0<width>x' % n], for [0 <= n < 16 ^ width]. *)
Fixpoint hex (width : nat) (n : Z) : string :=
  match width with
  | O => EmptyString
  | S w => String (hex_digit ((n / 16 ^ Z.of_nat w) mod 16)) (hex w n)
  end.

Module uuid.
(** [uuid.UUID]: the 128-bit [int] of the identifier. *)
Record UUID := mk { int : Z }.

(** [UUID(fields=(time_low, time_mid, time_hi_version,
    clock_seq_hi_variant, clock_seq_low, node), version=1)]. *)
Definition of_fields (time_low time_mid time_hi_version
                      clock_seq_hi_variant clock_seq_low node : Z) : UUID :=
  let clock_seq := Z.lor (Z.shiftl clock_seq_hi_variant 8) clock_seq_low in
  let i := Z.lor (Z.lor (Z.lor (Z.lor (Z.shiftl time_low 96)
                                      (Z.shiftl time_mid 80))
                               (Z.shiftl time_hi_version 64))
                        (Z.shiftl clock_seq 48))
                 node in
  let i := Z.ldiff i (Z.shiftl 0xc000 48) in
  let i := Z.lor i (Z.shiftl 0x8000 48) in
  let i := Z.ldiff i (Z.shiftl 0xf000 64) in
  let i := Z.lor i (Z.shiftl 1 76) in
  {| int := i |}.

(** [uuid.uuid1()] when the clock reads [timestamp] (in 100 ns ticks), with
    the clock sequence and the node of the host.  The system generator the
    module prefers where there is one lays the fields out the same way. *)
Definition uuid1 (timestamp clock_seq node : Z) : UUID :=
  let time_low := Z.land timestamp 0xffffffff in
  let time_mid := Z.land (Z.shiftr timestamp 32) 0xffff in
  let time_hi_version := Z.land (Z.shiftr timestamp 48) 0x0fff in
  let clock_seq_low := Z.land clock_seq 0xff in
  let clock_seq_hi_variant := Z.land (Z.shiftr clock_seq 8) 0x3f in
  of_fields time_low time_mid time_hi_version
            clock_seq_hi_variant clock_seq_low node.

(** [str(u)]: 32 hex digits in groups of 8-4-4-4-12. *)
Definition str (u : UUID) : string :=
  let h := hex 32 (int u) in
  (substring 0 8 h ++ "-" ++ substring 8 4 h ++ "-" ++ substring 12 4 h
     ++ "-" ++ substring 16 4 h ++ "-" ++ substring 20 12 h)%string.
End uuid.

(** ** [PrefetchProcessZMQ]

    The worker process over ZeroMQ.  [dumps] is the serializer of
    [utils/serialize.py].  The PUSH socket is the worker's own; the messages
    it has sent and the peer has not taken yet are [pending], and [send]
    blocks when their number reaches the high-water mark. *)
Module PrefetchProcessZMQ.
Section PrefetchProcessZMQ.
Context {Dp St Msg : Type} `{DataFlow Dp St} (dumps : Dp -> Msg).

Inductive pc :=
| AtReset              (* about to run [self.ds.reset_state()] *)
| AtContext            (* about to create [self.context] *)
| AtSocket             (* about to create [self.socket] *)
| AtSetHwm             (* about to [set_hwm(1)] *)
| AtConnect            (* about to [connect(self.conn_name)] *)
| AtWhile              (* at [while True:], about to call [get_data()] *)
| AtFor                (* at [for dp in ...], about to ask for the next dp *)
| AtSend (dp : Dp)     (* holding [dp], about to [send(dumps(dp))] *)
| Returned.            (* [run] has returned: the process is over *)

Inductive event :=
| EvReset
| EvConnect (name : string)
| EvSend (m : Msg).

(** The PUSH socket: its high-water mark and the address it is connected
    to.  A new socket has ZeroMQ's default mark. *)
Record socket := mk_socket { hwm : Z; peer : option string }.

Definition default_hwm : Z := 1000.

Record t := mk {
  ds : St;
  conn_name : string;
  context : bool;
  sock : option socket;
  at_ : pc;
  log : list event
}.

Definition start (s : St) (conn_name : string) : t :=
  {| ds := s; conn_name := conn_name; context := false; sock := None;
     at_ := AtReset; log := [] |}.

(** [socket.send(m)]: blocks while [pending] is at the mark; a mark of 0 is
    no limit. *)
Definition send (so : socket) (m : Msg) (pending : list Msg)
  : option (list Msg) :=
  if (0 <? hwm so) && (hwm so <=? Z.of_nat (length pending)) then None
  else Some (pending ++ [m]).

(** One step of [run].  [None]: no step, the process is blocked in [send]
    or is over. *)
Definition run (w : t) (pending : list Msg) : option (t * list Msg) :=
  match at_ w with
  | AtReset =>
      Some ({| ds := ds_reset_state (ds w); conn_name := conn_name w;
               context := context w; sock := sock w; at_ := AtContext;
               log := log w ++ [EvReset] |}, pending)
  | AtContext =>
      Some ({| ds := ds w; conn_name := conn_name w; context := true;
               sock := sock w; at_ := AtSocket; log := log w |}, pending)
  | AtSocket =>
      Some ({| ds := ds w; conn_name := conn_name w; context := context w;
               sock := Some {| hwm := default_hwm; peer := None |};
               at_ := AtSetHwm; log := log w |}, pending)
  | AtSetHwm =>
      Some ({| ds := ds w; conn_name := conn_name w; context := context w;
               sock := (fun so => {| hwm := 1; peer := peer so |}) <$> sock w;
               at_ := AtConnect; log := log w |}, pending)
  | AtConnect =>
      Some ({| ds := ds w; conn_name := conn_name w; context := context w;
               sock := (fun so => {| hwm := hwm so;
                                     peer := Some (conn_name w) |}) <$> sock w;
               at_ := AtWhile;
               log := log w ++ [EvConnect (conn_name w)] |}, pending)
  | AtWhile =>
      Some ({| ds := ds_get_data (ds w); conn_name := conn_name w;
               context := context w; sock := sock w; at_ := AtFor;
               log := log w |}, pending)
  | AtFor =>
      match ds_next (ds w) with
      | (Some dp, s') =>
          Some ({| ds := s'; conn_name := conn_name w; context := context w;
                   sock := sock w; at_ := AtSend dp; log := log w |}, pending)
      | (None, s') =>
          Some ({| ds := s'; conn_name := conn_name w; context := context w;
                   sock := sock w; at_ := AtWhile; log := log w |}, pending)
      end
  | AtSend dp =>
      so ← sock w;
      pending' ← send so (dumps dp) pending;
      Some ({| ds := ds w; conn_name := conn_name w; context := context w;
               sock := sock w; at_ := AtFor;
               log := log w ++ [EvSend (dumps dp)] |}, pending')
  | Returned => None
  end.

Inductive reachable (s : St) (name : string) : t -> Prop :=
| reach_start : reachable s name (start s name)
| reach_step w p w' p' :
    reachable s name w -> run w p = Some (w', p') -> reachable s name w'.

Definition is_reset (e : event) : bool :=
  match e with EvReset => true | _ => false end.

Definition resets (l : list event) : nat :=
  length (List.filter is_reset l).

(** [n] steps of a worker whose messages are taken at once. *)
Fixpoint alone (n : nat) (w : t) : option t :=
  match n with
  | O => Some w
  | S n' => '(w', _) ← run w []; alone n' w'
  end.

(** The messages a history has sent, in order. *)
Definition sends (l : list event) : list Msg :=
  omap (fun e => match e with EvSend m => Some m | _ => None end) l.

(** A worker over ZeroMQ and a worker over the queue are at the same place
    in the same work: the same state of the data flow, the same data point
    in hand, and what the one has sent is the serialized form of what the
    other has put.  While the first sets up its socket the second waits at
    [while True]. *)
Definition alike (w : t) (wq : PrefetchProcess.t Dp St) : Prop :=
  ds w = PrefetchProcess.ds wq /\
  sends (log w) = map dumps (PrefetchProcess.puts (PrefetchProcess.log wq)) /\
  match at_ w with
  | AtReset => PrefetchProcess.at_ wq = PrefetchProcess.AtReset
  | AtContext | AtSocket | AtSetHwm | AtConnect | AtWhile =>
      PrefetchProcess.at_ wq = PrefetchProcess.AtWhile
  | AtFor => PrefetchProcess.at_ wq = PrefetchProcess.AtFor
  | AtSend dp => PrefetchProcess.at_ wq = PrefetchProcess.AtPut dp
  | Returned => False
  end.
End PrefetchProcessZMQ.
Arguments t : clear implicits.
Arguments pc : clear implicits.
Arguments event : clear implicits.
End PrefetchProcessZMQ.

(** ** [PrefetchDataZMQ]

    The coordinator over ZeroMQ.  The constructor and [__del__] run in a
    monad that records what they do to the outside (the events) and carries
    exceptions. *)
Module PrefetchDataZMQ.

Inductive exn :=
| AssertionError       (* a failed [assert] *)
| ZMQError             (* raised by [socket.bind] *)
| AttributeError       (* [terminate()] on a process never started *)
| LoggerError.         (* whatever a broken logger raises *)

Inductive event :=
| EvContext                   (* [zmq.Context()] *)
| EvSocket                    (* [context.socket(zmq.PULL)] *)
| EvSetHwm (n : Z)            (* [socket.set_hwm(n)] *)
| EvBind (name : string)      (* [socket.bind(name)] *)
| EvStart (i : nat)           (* [start()] of process [i] *)
| EvAtexit                    (* [atexit.register(...)] *)
| EvLog (msg : string)        (* a line written by [logger.info] *)
| EvDestroy (linger : Z)      (* [context.destroy(linger)] *)
| EvTerminate (i : nat).      (* [terminate()] of process [i] *)

(** A computation: the events so far, and an exception or a result. *)
Definition M (A : Type) : Type := list event * (exn + A).

Definition ret {A} (a : A) : M A := ([], inr a).
Definition raise {A} (e : exn) : M A := ([], inl e).
Definition emit (ev : event) : M unit := ([ev], inr tt).

Definition bind {A B} (m : M A) (f : A -> M B) : M B :=
  match m with
  | (evs, inl e) => (evs, inl e)
  | (evs, inr a) => let '(evs', r) := f a in (evs ++ evs', r)
  end.

(** [try: m except: pass]. *)
Definition try_pass (m : M unit) : M unit := (fst m, inr tt).

(** [assert b]. *)
Definition assert (b : bool) : M unit :=
  if b then ret tt else raise AssertionError.

#[export] Instance M_bind : MBind M := fun A B f m => bind m f.

(** What the constructor and [__del__] find around them: which paths are
    directories, which addresses [bind] accepts, the identifier
    [uuid.uuid1()] returns, and whether [logger.info] works for a line. *)
Record env := mk_env {
  isdir : string -> bool;
  bind_ok : string -> bool;
  uuid1 : uuid.UUID;
  logger_ok : string -> bool
}.

(** [logger.info(msg)]. *)
Definition logger_info (e : env) (msg : string) : M unit :=
  if logger_ok e msg then emit (EvLog msg) else raise LoggerError.

(** The life of a [multiprocessing.Process], seen from the parent. *)
Inductive status := Initial | Alive | Terminated.

(** The parent's side of a worker, [PrefetchProcessZMQ(self.ds,
    self.pipename)]. *)
Record handle := mk_handle {
  h_ds : nat;
  h_conn_name : string;
  h_status : status
}.

(** The fields of the coordinator object.  [closed] is [context.closed];
    [hwm] is the high-water mark of the PULL socket. *)
Record t := mk {
  ds : nat;
  _size : Z;
  nr_proc : Z;
  closed : bool;
  hwm : Z;
  pipename : string;
  procs : list handle
}.

(** The address of the pipe, from [pipedir] and a fresh identifier. *)
Definition make_pipename (pipedir : string) (u : uuid.UUID) : string :=
  (("ipc://" ++ rstrip "/" pipedir ++ "/dataflow-pipe-")
     ++ substring 0 6 (uuid.str u))%string.

(** [x.start()] of a handle. *)
Definition start_handle (h : handle) : handle :=
  {| h_ds := h_ds h; h_conn_name := h_conn_name h; h_status := Alive |}.

Definition set_terminated (h : handle) : handle :=
  {| h_ds := h_ds h; h_conn_name := h_conn_name h; h_status := Terminated |}.

(** [x.terminate()]: it signals the process, once more if it is already
    gone; a process never started has nothing to signal. *)
Definition terminate (i : nat) (h : handle) : M handle :=
  match h_status h with
  | Initial => raise AttributeError
  | Alive | Terminated => emit (EvTerminate i);; ret (set_terminated h)
  end.

(** [for x in self.procs: x.terminate()], counting from [i]. *)
Fixpoint terminate_all (i : nat) (hs : list handle) : M (list handle) :=
  match hs with
  | [] => ret []
  | h :: rest =>
      h' ← terminate i h;
      rest' ← terminate_all (S i) rest;
      ret (h' :: rest')
  end.

(** Modelled from the spec: [start_proc_mask_signal] of
    [utils/concurrency.py], which starts every process of the list, in
    order, with the interrupt signal masked in the parent meanwhile. *)
Fixpoint start_proc_mask_signal (i : nat) (hs : list handle)
  : M (list handle) :=
  match hs with
  | [] => ret []
  | h :: rest =>
      emit (EvStart i);;
      rest' ← start_proc_mask_signal (S i) rest;
      ret (start_handle h :: rest')
  end.

Section PrefetchDataZMQ.
Context {Dp St Msg : Type} `{DataFlow Dp St} (loads : Msg -> Dp).

(** The coordinator object and its started children. *)
Record system := mk_system {
  self : t;
  workers : list (PrefetchProcessZMQ.t Dp St Msg)
}.

(** [PrefetchDataZMQ(ds, nr_proc, pipedir)]. *)
Definition __init__ (e : env) (hp : nat -> St) (ds : nat) (nr_proc : Z)
           (pipedir : string) : M system :=
  let size := match ds_size (hp ds) with Some n => n | None => -1 end in
  emit EvContext;;
  emit EvSocket;;
  assert (isdir e pipedir);;
  let pipename := make_pipename pipedir (uuid1 e) in
  emit (EvSetHwm 5);;
  (if bind_ok e pipename then emit (EvBind pipename) else raise ZMQError);;
  let procs := replicate (Z.to_nat nr_proc)
                 {| h_ds := ds; h_conn_name := pipename;
                    h_status := Initial |} in
  procs' ← start_proc_mask_signal 0 procs;
  emit EvAtexit;;
  ret {| self := {| ds := ds; _size := size; nr_proc := nr_proc;
                    closed := false; hwm := 5; pipename := pipename;
                    procs := procs' |};
         workers := map (fun h => PrefetchProcessZMQ.start
                                    (hp (h_ds h)) (h_conn_name h))
                        procs |}.

Inductive pulled :=
| StopIteration
| Blocked
| Yield (dp : Dp) (k' : Z) (inbox' : list Msg).

(** [next] on the generator of [get_data], at counter [k].  [inbox] holds
    the messages that have arrived at the PULL socket; [recv] blocks when
    there is none. *)
Definition get_data (size : Z) (k : Z) (inbox : list Msg) : pulled :=
  if (0 <? size) && (size <=? k) then StopIteration
  else match inbox with
       | m :: inbox' => Yield (loads m) (k + 1) inbox'
       | [] => Blocked
       end.

Fixpoint pull (n : nat) (size k : Z) (inbox : list Msg)
  : list Dp * Z * list Msg * bool :=
  match n with
  | O => ([], k, inbox, false)
  | S n' =>
      match get_data size k inbox with
      | StopIteration => ([], k, inbox, true)
      | Blocked => ([], k, inbox, false)
      | Yield dp k' inbox' =>
          let '(dps, k'', inbox'', stop) := pull n' size k' inbox' in
          (dp :: dps, k'', inbox'', stop)
      end
  end.
End PrefetchDataZMQ.

(** [__del__]: log if the logger still works, destroy the context unless
    it is closed, terminate every process, log again. *)
Definition __del__ (e : env) (c : t) : M t :=
  try_pass (logger_info e "Prefetch process exiting...");;
  c1 ← (if negb (closed c)
        then (emit (EvDestroy 0);;
              ret {| ds := ds c; _size := _size c; nr_proc := nr_proc c;
                     closed := true; hwm := hwm c; pipename := pipename c;
                     procs := procs c |})
        else ret c);
  procs' ← terminate_all 0 (procs c1);
  try_pass (logger_info e "Prefetch process exited.");;
  ret {| ds := ds c1; _size := _size c1; nr_proc := nr_proc c1;
         closed := closed c1; hwm := hwm c1; pipename := pipename c1;
         procs := procs' |}.

(** Every process of the coordinator has been started. *)
Definition started (c : t) : Prop :=
  Forall (fun h => h_status h <> Initial) (procs c).

Arguments system : clear implicits.
Arguments pulled : clear implicits.
End PrefetchDataZMQ.

(** ** An example data flow

    A data flow over a fixed list of integers: every pass yields the list.
    [lf_rest] is what the open generator still has to yield. *)
Record list_flow := mk_list_flow { lf_items : list Z; lf_rest : list Z }.

#[export] Instance ListFlow : DataFlow Z list_flow := {|
  ds_size s := Some (Z.of_nat (length (lf_items s)));
  ds_reset_state s := s;
  ds_get_data s := {| lf_items := lf_items s; lf_rest := lf_items s |};
  ds_next s :=
    match lf_rest s with
    | [] => (None, s)
    | x :: rest => (Some x, {| lf_items := lf_items s; lf_rest := rest |})
    end
|}.

(** The data flow of five integers, 0 to 4, and a heap that holds it. *)
Definition five : list_flow := {| lf_items := [0; 1; 2; 3; 4]; lf_rest := [] |}.
Definition five_heap : nat -> list_flow := fun _ => five.

(** A data flow that says it has no data point, and has none. *)
Definition nothing : list_flow := {| lf_items := []; lf_rest := [] |}.

(** One worker on [nothing], looking for data three times. *)
Definition example_idle : PrefetchData.system Z list_flow :=
  let st0 := PrefetchData.__init__ (fun _ => nothing) 0%nat 2 1 in
  default st0 (PrefetchData.exec
                 [PrefetchData.Work 0; PrefetchData.Work 0;
                  PrefetchData.Work 0] st0).


(** Two identifiers [uuid1] gives one tick of 100 ns apart on one host, to
    two processes with their own clock sequences. *)
Definition uuid_a : uuid.UUID :=
  uuid.uuid1 0x1ed9f3c5a7b1200 0x1234 0x0242ac110002.
Definition uuid_b : uuid.UUID :=
  uuid.uuid1 0x1ed9f3c5a7b1201 0x2abc 0x0242ac110002.

(** An environment in which every path is a directory or none is, [bind]
    works, and the logger works or is broken. *)
Definition example_env (dirs logger : bool) : PrefetchDataZMQ.env :=
  {| PrefetchDataZMQ.isdir := fun _ => dirs;
     PrefetchDataZMQ.bind_ok := fun _ => true;
     PrefetchDataZMQ.uuid1 := uuid_a;
     PrefetchDataZMQ.logger_ok := fun _ => logger |}.

(** A coordinator over ZeroMQ with two running workers. *)
Definition example_coordinator : PrefetchDataZMQ.t :=
  let h := {| PrefetchDataZMQ.h_ds := 0%nat;
              PrefetchDataZMQ.h_conn_name := "ipc:///tmp/dataflow-pipe-5a7b12";
              PrefetchDataZMQ.h_status := PrefetchDataZMQ.Alive |} in
  {| PrefetchDataZMQ.ds := 0%nat; PrefetchDataZMQ._size := 5;
     PrefetchDataZMQ.nr_proc := 2; PrefetchDataZMQ.closed := false;
     PrefetchDataZMQ.hwm := 5;
     PrefetchDataZMQ.pipename := "ipc:///tmp/dataflow-pipe-5a7b12";
     PrefetchDataZMQ.procs := [h; h] |}.



(** Two workers on [five] and a queue of two: each worker puts its first
    data point, the consumer pulls, worker 0 puts its second, the consumer
    pulls again. *)
Definition busy_schedule : list PrefetchData.label :=
  [PrefetchData.Work 0; PrefetchData.Work 0; PrefetchData.Work 0;
   PrefetchData.Work 0;
   PrefetchData.Work 1; PrefetchData.Work 1; PrefetchData.Work 1;
   PrefetchData.Work 1;
   PrefetchData.Pull;
   PrefetchData.Work 0; PrefetchData.Work 0;
   PrefetchData.Pull].

Definition busy_run : PrefetchData.system Z list_flow :=
  let st0 := PrefetchData.__init__ five_heap 0%nat 2 2 in
  default st0 (PrefetchData.exec busy_schedule st0).

(** An environment in which [bind] raises. *)
Definition env_bind_fails : PrefetchDataZMQ.env :=
  {| PrefetchDataZMQ.isdir := fun _ => true;
     PrefetchDataZMQ.bind_ok := fun _ => false;
     PrefetchDataZMQ.uuid1 := uuid_a;
     PrefetchDataZMQ.logger_ok := fun _ => true |}.

(** A worker over ZeroMQ on [five] after its first [send], with integers
    sent as they are. *)
Definition after_first_send : PrefetchProcessZMQ.t Z list_flow Z :=
  {| PrefetchProcessZMQ.ds := {| lf_items := [0; 1; 2; 3; 4];
                                 lf_rest := [1; 2; 3; 4] |};
     PrefetchProcessZMQ.conn_name := "ipc:///tmp/dataflow-pipe-5a7b12";
     PrefetchProcessZMQ.context := true;
     PrefetchProcessZMQ.sock :=
       Some {| PrefetchProcessZMQ.hwm := 1;
               PrefetchProcessZMQ.peer :=
                 Some "ipc:///tmp/dataflow-pipe-5a7b12"%string |};
     PrefetchProcessZMQ.at_ := PrefetchProcessZMQ.AtFor;
     PrefetchProcessZMQ.log :=
       [PrefetchProcessZMQ.EvReset;
        PrefetchProcessZMQ.EvConnect "ipc:///tmp/dataflow-pipe-5a7b12";
        PrefetchProcessZMQ.EvSend 0] |}.

(** * Properties *)

(** ** The generator of [get_data] *)

Section get_data.
Context {Dp Msg : Type} (loads : Msg -> Dp).

Lemma get_data_stop size k (q : Queue.t Dp) :
  PrefetchData.get_data size k q = PrefetchData.StopIteration <->
  0 < size <= k.
Proof.
  unfold PrefetchData.get_data, Queue.get.
  destruct (0 <? size) eqn:Hpos; destruct (size <=? k) eqn:Hle; simpl;
    destruct (Queue.items q); split; intros; try done; lia.
Qed.

Lemma get_data_zmq_stop size k (inbox : list Msg) :
  PrefetchDataZMQ.get_data loads size k inbox = PrefetchDataZMQ.StopIteration
  <->
  0 < size <= k.
Proof.
  unfold PrefetchDataZMQ.get_data.
  destruct (0 <? size) eqn:Hpos; destruct (size <=? k) eqn:Hle; simpl;
    destruct inbox; split; intros; try done; lia.
Qed.

Lemma get_data_yield size k m dp (rest : list Dp) :
  ~ (0 < size <= k) ->
  PrefetchData.get_data size k
                        {| Queue.maxsize := m; Queue.items := dp :: rest |}
  = PrefetchData.Yield dp (k + 1) {| Queue.maxsize := m; Queue.items := rest |}.
Proof.
  intros Hk. unfold PrefetchData.get_data, Queue.get; simpl.
  destruct (0 <? size) eqn:Hpos; destruct (size <=? k) eqn:Hle; simpl;
    try done; lia.
Qed.

Lemma get_data_zmq_yield size k m (rest : list Msg) :
  ~ (0 < size <= k) ->
  PrefetchDataZMQ.get_data loads size k (m :: rest)
  = PrefetchDataZMQ.Yield (loads m) (k + 1) rest.
Proof.
  intros Hk. unfold PrefetchDataZMQ.get_data.
  destruct (0 <? size) eqn:Hpos; destruct (size <=? k) eqn:Hle; simpl;
    try done; lia.
Qed.

(** What any run of pulls has done: it read a prefix of the queue, counted
    what it read, and it stopped only at a positive count it had reached. *)
Lemma pull_sound n : forall size k (q : Queue.t Dp) dps k' q' stop,
  PrefetchData.pull n size k q = (dps, k', q', stop) ->
  k' = k + Z.of_nat (length dps) /\
  Queue.items q = dps ++ Queue.items q' /\
  Queue.maxsize q' = Queue.maxsize q /\
  (stop = true -> 0 < size <= k') /\
  (0 < size -> k <= size -> k' <= size).
Proof.
  induction n as [|n IH]; intros size k q dps k' q' stop Hp; simpl in Hp.
  - inversion Hp; subst; simpl. split_and!; try done; lia.
  - destruct (PrefetchData.get_data size k q) as [| |dp k1 q1] eqn:Hg.
    + inversion Hp; subst; simpl. apply get_data_stop in Hg.
      split_and!; try done; lia.
    + inversion Hp; subst; simpl. split_and!; try done; lia.
    + destruct (PrefetchData.pull n size k1 q1) as [[[dps1 k2] q2] stop1]
        eqn:Hr.
      inversion Hp; subst; clear Hp.
      assert (Hns : ~ (0 < size <= k)).
      { intros Hs. apply get_data_stop with (q := q) in Hs. congruence. }
      unfold PrefetchData.get_data, Queue.get in Hg.
      destruct ((0 <? size) && (size <=? k)); [done|].
      destruct q as [m its]; simpl in *. destruct its as [|x its]; [done|].
      inversion Hg; subst; clear Hg.
      apply IH in Hr as (-> & Hits & Hm & Hstop & Hle); simpl in *.
      split_and!; [lia | by rewrite Hits | done | | lia].
      intros Hst. specialize (Hstop Hst). lia.
Qed.

Lemma pull_zmq_sound n : forall size k (inbox : list Msg) dps k' inbox' stop,
  PrefetchDataZMQ.pull loads n size k inbox = (dps, k', inbox', stop) ->
  k' = k + Z.of_nat (length dps) /\
  (exists ms, inbox = ms ++ inbox' /\ dps = map loads ms) /\
  (stop = true -> 0 < size <= k') /\
  (0 < size -> k <= size -> k' <= size).
Proof.
  induction n as [|n IH]; intros size k inbox dps k' inbox' stop Hp;
    simpl in Hp.
  - inversion Hp; subst; simpl. split_and!; try lia; try done. by exists [].
  - destruct (PrefetchDataZMQ.get_data loads size k inbox)
      as [| |dp k1 in1] eqn:Hg.
    + inversion Hp; subst; simpl. apply get_data_zmq_stop in Hg.
      split_and!; try lia; try done. by exists [].
    + inversion Hp; subst; simpl. split_and!; try lia; try done.
      by exists [].
    + destruct (PrefetchDataZMQ.pull loads n size k1 in1)
        as [[[dps1 k2] in2] stop1] eqn:Hr.
      inversion Hp; subst; clear Hp.
      assert (Hns : ~ (0 < size <= k)).
      { intros Hs. apply get_data_zmq_stop with (inbox := inbox) in Hs.
        congruence. }
      unfold PrefetchDataZMQ.get_data in Hg.
      destruct ((0 <? size) && (size <=? k)); [done|].
      destruct inbox as [|m ms]; [done|].
      inversion Hg; subst; clear Hg.
      apply IH in Hr as (-> & (ms' & -> & ->) & Hstop & Hle); simpl in *.
      split_and!; [lia | by exists (m :: ms') | | lia].
      intros Hst. specialize (Hstop Hst). lia.
Qed.

(** While the count does not stop it and the queue has enough, every pull
    yields. *)
Lemma pull_yields n : forall size k m (its : list Dp),
  (n <= length its)%nat ->
  (0 < size -> k + Z.of_nat n <= size) ->
  PrefetchData.pull n size k {| Queue.maxsize := m; Queue.items := its |}
  = (take n its, k + Z.of_nat n,
     {| Queue.maxsize := m; Queue.items := drop n its |}, false).
Proof.
  induction n as [|n IH]; intros size k m its Hlen Hsz.
  - simpl. by rewrite Z.add_0_r, drop_0.
  - destruct its as [|x its]; [simpl in Hlen; lia|].
    cbn [PrefetchData.pull]. rewrite get_data_yield by lia.
    rewrite IH by (simpl in Hlen; lia). simpl. do 3 f_equal. lia.
Qed.

Lemma pull_zmq_yields n : forall size k (inbox : list Msg),
  (n <= length inbox)%nat ->
  (0 < size -> k + Z.of_nat n <= size) ->
  PrefetchDataZMQ.pull loads n size k inbox
  = (map loads (take n inbox), k + Z.of_nat n, drop n inbox, false).
Proof.
  induction n as [|n IH]; intros size k inbox Hlen Hsz.
  - simpl. by rewrite Z.add_0_r, drop_0.
  - destruct inbox as [|x inbox]; [simpl in Hlen; lia|].
    cbn [PrefetchDataZMQ.pull]. rewrite get_data_zmq_yield by lia.
    rewrite IH by (simpl in Hlen; lia). simpl. do 3 f_equal. lia.
Qed.

(** One pull more than the count finds the generator stopped. *)
Lemma pull_stops n extra : forall size k m (its : list Dp),
  0 < size -> k + Z.of_nat n = size ->
  (n <= length its)%nat ->
  PrefetchData.pull (n + S extra) size k
                    {| Queue.maxsize := m; Queue.items := its |}
  = (take n its, size,
     {| Queue.maxsize := m; Queue.items := drop n its |}, true).
Proof.
  induction n as [|n IH]; intros size k m its Hpos Hk Hlen.
  - simpl. replace (PrefetchData.get_data size k _)
      with (@PrefetchData.StopIteration Dp)
      by (symmetry; apply get_data_stop; lia).
    rewrite drop_0. do 3 f_equal. lia.
  - destruct its as [|x its]; [simpl in Hlen; lia|].
    cbn [Nat.add PrefetchData.pull]. rewrite get_data_yield by lia.
    rewrite IH by (simpl in Hlen; lia). done.
Qed.

Lemma pull_zmq_stops n extra : forall size k (inbox : list Msg),
  0 < size -> k + Z.of_nat n = size ->
  (n <= length inbox)%nat ->
  PrefetchDataZMQ.pull loads (n + S extra) size k inbox
  = (map loads (take n inbox), size, drop n inbox, true).
Proof.
  induction n as [|n IH]; intros size k inbox Hpos Hk Hlen.
  - simpl. replace (PrefetchDataZMQ.get_data loads size k _)
      with (@PrefetchDataZMQ.StopIteration Dp Msg)
      by (symmetry; apply get_data_zmq_stop; lia).
    rewrite drop_0. do 3 f_equal. lia.
  - destruct inbox as [|x inbox]; [simpl in Hlen; lia|].
    cbn [Nat.add PrefetchDataZMQ.pull]. rewrite get_data_zmq_yield by lia.
    rewrite IH by (simpl in Hlen; lia). done.
Qed.

End get_data.

(** ** The worker processes *)

(** Case analysis on one step of [run]. *)
Ltac run_cases Hrun :=
  simpl in *;
  repeat match type of Hrun with
         | context [ds_next ?s] => destruct (ds_next s) as [[?|] ?] eqn:?
         | context [Queue.put ?dp ?q] => destruct (Queue.put dp q) eqn:?
         | context [mbind _ ?o] => destruct o eqn:?; simpl in Hrun
         end;
  try discriminate Hrun;
  inversion Hrun; subst; clear Hrun; simpl in *.

Ltac run_inv Hrun w :=
  let wds := fresh "wds" in
  let wat := fresh "wat" in
  let wlog := fresh "wlog" in
  unfold PrefetchProcess.run in Hrun;
  destruct w as [wds wat wlog]; destruct wat; run_cases Hrun.

Ltac run_zmq_inv Hrun w :=
  let wds := fresh "wds" in
  let wname := fresh "wname" in
  let wctx := fresh "wctx" in
  let wsock := fresh "wsock" in
  let wat := fresh "wat" in
  let wlog := fresh "wlog" in
  unfold PrefetchProcessZMQ.run in Hrun;
  destruct w as [wds wname wctx wsock wat wlog]; destruct wat;
  run_cases Hrun.

Section workers.
Context {Dp St Msg : Type} `{DataFlow Dp St} (dumps : Dp -> Msg).




(** The history of a worker over the queue: nothing before the reset, and
    after it the reset followed by puts only. *)
Lemma reachable_log s (w : PrefetchProcess.t Dp St) :
  PrefetchProcess.reachable s w ->
  PrefetchProcess.at_ w <> PrefetchProcess.Returned /\
  (PrefetchProcess.at_ w = PrefetchProcess.AtReset ->
   PrefetchProcess.log w = [] /\ PrefetchProcess.ds w = s) /\
  (PrefetchProcess.at_ w <> PrefetchProcess.AtReset ->
   exists dps,
     PrefetchProcess.log w
     = PrefetchProcess.EvReset :: map PrefetchProcess.EvPut dps).
Proof.
  induction 1 as [|w q w' q' Hr (Hret & Hinit & Hlog) Hrun].
  - simpl. split_and!; done.
  - run_inv Hrun w; split_and!; try done; intros _.
    + destruct Hinit as [-> _]; [done|]. by exists [].
    + apply Hlog; done.
    + apply Hlog; done.
    + apply Hlog; done.
    + destruct Hlog as [dps ->]; [done|]. exists (dps ++ [dp]).
      by rewrite map_app.
Qed.


(** A worker over the queue that has not returned can always step, unless
    the queue is full and it is about to put. *)
Lemma run_enabled (w : PrefetchProcess.t Dp St) (q : Queue.t Dp) :
  PrefetchProcess.at_ w <> PrefetchProcess.Returned ->
  Queue.full q = false ->
  exists w' q', PrefetchProcess.run w q = Some (w', q').
Proof.
  intros Hret Hfull. unfold PrefetchProcess.run, Queue.put.
  destruct w as [wds wat wlog]; destruct wat; simpl in *; try done; eauto.
  - destruct (ds_next wds) as [[dp|] s']; eauto.
  - rewrite Hfull. eauto.
Qed.

(** What a step makes of the worker does not depend on the queue. *)
Lemma run_any_queue (w w' : PrefetchProcess.t Dp St) (q q' q2 : Queue.t Dp) :
  PrefetchProcess.run w q = Some (w', q') ->
  Queue.full q2 = false ->
  exists q2', PrefetchProcess.run w q2 = Some (w', q2').
Proof.
  intros Hrun Hfull.
  run_inv Hrun w; unfold PrefetchProcess.run, Queue.put; simpl; eauto;
    try match goal with Hn : ds_next _ = _ |- _ => rewrite Hn; eauto end.
  rewrite Hfull. eauto.
Qed.





End workers.

(** ** The coordinator over the queue, with its workers *)

Section system.
Context {Dp St : Type} `{DataFlow Dp St}.

Implicit Types (st : PrefetchData.system Dp St) (w : PrefetchProcess.t Dp St).

Lemma puts_app (l1 l2 : list (PrefetchProcess.event Dp)) :
  PrefetchProcess.puts (l1 ++ l2)
  = PrefetchProcess.puts l1 ++ PrefetchProcess.puts l2.
Proof. apply omap_app. Qed.

(** A step of a worker either leaves the queue alone or appends the data
    point it holds. *)
Lemma run_queue w q w' q' :
  PrefetchProcess.run w q = Some (w', q') ->
  (q' = q /\ PrefetchProcess.log w' = PrefetchProcess.log w \/
   PrefetchProcess.log w' = PrefetchProcess.log w ++ [PrefetchProcess.EvReset]
   /\ q' = q) \/
  (exists dp, PrefetchProcess.at_ w = PrefetchProcess.AtPut dp /\
              Queue.full q = false /\
              q' = {| Queue.maxsize := Queue.maxsize q;
                      Queue.items := Queue.items q ++ [dp] |} /\
              PrefetchProcess.log w'
              = PrefetchProcess.log w ++ [PrefetchProcess.EvPut dp]).
Proof.
  intros Hrun. unfold PrefetchProcess.run, Queue.put in Hrun.
  destruct w as [wds wat wlog]; destruct wat; simpl in *.
  - inversion Hrun; auto.
  - inversion Hrun; auto.
  - destruct (ds_next wds) as [[dp|] s']; inversion Hrun; auto.
  - destruct (Queue.full q) eqn:Hfull; inversion Hrun; subst.
    right. exists dp. auto.
  - done.
Qed.

(** What a step of the system is. *)
Lemma step_work i st st' :
  PrefetchData.step (PrefetchData.Work i) st = Some st' ->
  exists w w' q',
    PrefetchData.workers st !! i = Some w /\
    PrefetchProcess.run w (PrefetchData.queue st) = Some (w', q') /\
    st' = {| PrefetchData.heap := PrefetchData.heap st;
             PrefetchData.self := PrefetchData.self st;
             PrefetchData.workers := <[i := w']> (PrefetchData.workers st);
             PrefetchData.queue := q';
             PrefetchData.k := PrefetchData.k st;
             PrefetchData.out := PrefetchData.out st;
             PrefetchData.stopped := PrefetchData.stopped st |}.
Proof.
  unfold PrefetchData.step. intros Hstep.
  destruct (PrefetchData.workers st !! i) as [w|] eqn:Hw; [|done].
  simpl in Hstep.
  destruct (PrefetchProcess.run w (PrefetchData.queue st)) as [[w' q']|]
    eqn:Hrun; [|done].
  simpl in Hstep. inversion Hstep. by exists w, w', q'.
Qed.

Lemma step_pull st st' :
  PrefetchData.step PrefetchData.Pull st = Some st' ->
  PrefetchData.stopped st = false /\
  PrefetchData.heap st' = PrefetchData.heap st /\
  PrefetchData.self st' = PrefetchData.self st /\
  PrefetchData.workers st' = PrefetchData.workers st /\
  ((0 < PrefetchData._size (PrefetchData.self st) <= PrefetchData.k st /\
    PrefetchData.queue st' = PrefetchData.queue st /\
    PrefetchData.k st' = PrefetchData.k st /\
    PrefetchData.out st' = PrefetchData.out st /\
    PrefetchData.stopped st' = true) \/
   (exists dp,
      ~ (0 < PrefetchData._size (PrefetchData.self st) <= PrefetchData.k st) /\
      Queue.items (PrefetchData.queue st)
      = dp :: Queue.items (PrefetchData.queue st') /\
      Queue.maxsize (PrefetchData.queue st')
      = Queue.maxsize (PrefetchData.queue st) /\
      PrefetchData.k st' = PrefetchData.k st + 1 /\
      PrefetchData.out st' = PrefetchData.out st ++ [dp] /\
      PrefetchData.stopped st' = false)).
Proof.
  unfold PrefetchData.step. intros Hstep.
  destruct (PrefetchData.stopped st); [done|].
  destruct (PrefetchData.get_data _ _ _) as [| |dp k' q'] eqn:Hg; [|done|].
  - inversion Hstep; subst; simpl. apply get_data_stop in Hg.
    split_and!; try done. by left.
  - inversion Hstep; subst; simpl.
    assert (Hns : ~ (0 < PrefetchData._size (PrefetchData.self st)
                     <= PrefetchData.k st)).
    { intros Hs. apply get_data_stop with (q := PrefetchData.queue st) in Hs.
      congruence. }
    unfold PrefetchData.get_data, Queue.get in Hg.
    destruct (_ && _); [done|].
    destruct (Queue.items _) eqn:Hits; [done|]. inversion Hg; subst.
    split_and!; try done. right. by exists dp.
Qed.

(** Nothing a step does touches the coordinator object, the parent's heap,
    the bound of the queue or the number of workers. *)
Lemma step_frame l st st' :
  PrefetchData.step l st = Some st' ->
  PrefetchData.self st' = PrefetchData.self st /\
  PrefetchData.heap st' = PrefetchData.heap st /\
  Queue.maxsize (PrefetchData.queue st')
  = Queue.maxsize (PrefetchData.queue st) /\
  length (PrefetchData.workers st') = length (PrefetchData.workers st).
Proof.
  destruct l as [i|]; intros Hstep.
  - apply step_work in Hstep as (w & w' & q' & Hw & Hrun & ->); simpl.
    rewrite length_insert. split_and!; try done.
    apply run_queue in Hrun as [[[-> _]|[_ ->]]|(dp & _ & _ & -> & _)]; done.
  - apply step_pull in Hstep
      as (_ & -> & -> & -> & [(_ & -> & _)|(dp & _ & _ & -> & _)]); done.
Qed.

Lemma exec_frame sched : forall st st',
  PrefetchData.exec sched st = Some st' ->
  PrefetchData.self st' = PrefetchData.self st /\
  PrefetchData.heap st' = PrefetchData.heap st /\
  Queue.maxsize (PrefetchData.queue st')
  = Queue.maxsize (PrefetchData.queue st) /\
  length (PrefetchData.workers st') = length (PrefetchData.workers st).
Proof.
  induction sched as [|l sched IH]; intros st st' He; simpl in He.
  - by inversion He.
  - destruct (PrefetchData.step l st) as [st1|] eqn:Hs; [|done]. simpl in He.
    apply IH in He as (-> & -> & -> & ->). by apply step_frame in Hs.
Qed.

(** An invariant that every step keeps holds after every schedule. *)
Lemma exec_invariant (P : PrefetchData.system Dp St -> Prop) :
  (forall l st st', P st -> PrefetchData.step l st = Some st' -> P st') ->
  forall sched st st', P st -> PrefetchData.exec sched st = Some st' -> P st'.
Proof.
  intros Hstep. induction sched as [|l sched IH]; intros st st' HP He;
    simpl in He.
  - by inversion He; subst.
  - destruct (PrefetchData.step l st) as [st1|] eqn:Hs; [|done]. simpl in He.
    eapply IH; [|done]. by eapply Hstep.
Qed.

Lemma step_counted l st st' :
  PrefetchData.counted st -> PrefetchData.step l st = Some st' ->
  PrefetchData.counted st'.
Proof.
  intros (Hk & Hle & Hstop) Hstep. unfold PrefetchData.counted.
  destruct l as [i|].
  - by apply step_work in Hstep as (w & w' & q' & Hw & Hrun & ->).
  - apply step_pull in Hstep
      as (Hns & _ & -> & _ & [(Hs & _ & -> & -> & ->)
                             |(dp & Hs & _ & _ & -> & -> & ->)]).
    + split_and!; try done; lia.
    + rewrite length_app; simpl. split_and!; try done; lia.
Qed.

Lemma step_bounded l st st' :
  PrefetchData.bounded st -> PrefetchData.step l st = Some st' ->
  PrefetchData.bounded st'.
Proof.
  intros Hb Hstep. unfold PrefetchData.bounded in *.
  destruct l as [i|].
  - apply step_work in Hstep as (w & w' & q' & Hw & Hrun & ->); simpl.
    apply run_queue in Hrun as [[[-> _]|[_ ->]]|(dp & _ & Hfull & -> & _)];
      try done.
    simpl. rewrite length_app; simpl. unfold Queue.full in Hfull.
    intros Hpos. specialize (Hb Hpos).
    destruct (0 <? _) eqn:Hp; destruct (_ <=? _) eqn:Hle; simpl in *;
      try done; lia.
  - apply step_pull in Hstep
      as (_ & _ & _ & _ & [(_ & -> & _)|(dp & _ & Hits & Hm & _)]); [done|].
    rewrite Hm. rewrite Hits in Hb. simpl in Hb. lia.
Qed.

(** *** A single worker: the order of its first pass *)

Lemma first_pass_step s0 dps s' w q w' q' :
  one_pass (ds_get_data (ds_reset_state s0)) dps s' ->
  PrefetchProcess.in_first_pass s0 dps w \/
  dps `prefix_of` PrefetchProcess.puts (PrefetchProcess.log w) ->
  PrefetchProcess.run w q = Some (w', q') ->
  PrefetchProcess.in_first_pass s0 dps w' \/
  dps `prefix_of` PrefetchProcess.puts (PrefetchProcess.log w').
Proof.
  intros Hpass [Hin|Hpre] Hrun.
  - unfold PrefetchProcess.in_first_pass in *.
    run_inv Hrun w.
    + destruct Hin as [-> Hp]. left. by rewrite puts_app, Hp.
    + destruct Hin as [-> Hp]. left. exists dps, s'. by rewrite Hp.
    + destruct Hin as (rest & s2 & -> & Hone). left.
      inversion Hone; subst; [congruence|].
      match goal with
      | H1 : ds_next wds = _, H2 : ds_next wds = _ |- _ =>
          rewrite H1 in H2; inversion H2; subst
      end.
      eauto.
    + destruct Hin as (rest & s2 & -> & Hone). right.
      inversion Hone; subst; [|congruence]. by rewrite app_nil_r.
    + destruct Hin as (rest & s2 & -> & Hone). left.
      exists rest, s2. split; [|done].
      rewrite puts_app; simpl. by rewrite <- app_assoc.
  - right. etrans; [done|].
    apply run_queue in Hrun as [[[_ ->]|[-> _]]|(dp & _ & _ & _ & ->)];
      [done | |]; rewrite puts_app; by apply prefix_app_r.
Qed.

Lemma first_pass_reachable s0 dps s' w :
  one_pass (ds_get_data (ds_reset_state s0)) dps s' ->
  PrefetchProcess.reachable s0 w ->
  PrefetchProcess.in_first_pass s0 dps w \/
  dps `prefix_of` PrefetchProcess.puts (PrefetchProcess.log w).
Proof.
  intros Hpass. induction 1 as [|w q w' q' Hr IH Hrun].
  - left. by simpl.
  - by eapply first_pass_step.
Qed.

(** What a single worker has put is the beginning of its first pass, or
    goes on after all of it. *)
Lemma first_pass_order s0 dps w :
  direct_pass s0 dps ->
  PrefetchProcess.reachable s0 w ->
  PrefetchProcess.puts (PrefetchProcess.log w) `prefix_of` dps \/
  dps `prefix_of` PrefetchProcess.puts (PrefetchProcess.log w).
Proof.
  intros [s' Hpass] Hr.
  destruct (first_pass_reachable s0 dps s' w Hpass Hr) as [Hin|Hpre]; [|auto].
  left. unfold PrefetchProcess.in_first_pass in Hin.
  destruct (PrefetchProcess.at_ w).
  - destruct Hin as [_ ->]. apply prefix_nil.
  - destruct Hin as [_ ->]. apply prefix_nil.
  - destruct Hin as (rest & s2 & -> & _). by apply prefix_app_r.
  - destruct Hin as (rest & s2 & -> & _). by apply prefix_app_r.
  - done.
Qed.

Lemma step_conserved s0 l st st' :
  PrefetchData.conserved s0 st -> PrefetchData.step l st = Some st' ->
  PrefetchData.conserved s0 st'.
Proof.
  intros (w & Hws & Hr & Hout) Hstep. unfold PrefetchData.conserved.
  destruct l as [i|].
  - apply step_work in Hstep as (w1 & w' & q' & Hw & Hrun & ->); simpl.
    rewrite Hws in Hw |- *. destruct i as [|i]; [|done].
    inversion Hw; subst w1. exists w'. split; [done|].
    split; [by eapply PrefetchProcess.reach_step|].
    apply run_queue in Hrun
      as [[[-> ->]|[-> ->]]|(dp & _ & _ & -> & ->)]; simpl.
    + done.
    + by rewrite puts_app, app_nil_r.
    + by rewrite puts_app, app_assoc, Hout.
  - apply step_pull in Hstep
      as (_ & _ & _ & -> & [(_ & -> & _ & -> & _)
                           |(dp & _ & Hits & _ & _ & -> & _)]).
    + by exists w.
    + exists w. split_and!; try done.
      rewrite Hits in Hout. by rewrite <- app_assoc.
Qed.

Lemma init_conserved hp ds nr_prefetch :
  PrefetchData.conserved (hp ds) (PrefetchData.__init__ hp ds nr_prefetch 1).
Proof.
  exists (PrefetchProcess.start (hp ds)). split_and!; try done.
  apply PrefetchProcess.reach_start.
Qed.

Lemma init_counted hp ds nr_prefetch nr_proc :
  PrefetchData.counted (PrefetchData.__init__ hp ds nr_prefetch nr_proc).
Proof. unfold PrefetchData.counted; simpl. split_and!; try done; lia. Qed.

(** Under every schedule the generator has stopped only at a positive
    stored size, which is what [ds.size()] said when the coordinator was
    built, or -1 if it raised. *)
Lemma exec_counted hp ds nr_prefetch nr_proc sched st :
  PrefetchData.exec sched (PrefetchData.__init__ hp ds nr_prefetch nr_proc)
  = Some st ->
  PrefetchData.counted st /\
  PrefetchData._size (PrefetchData.self st)
  = match ds_size (hp ds) with Some n => n | None => -1 end.
Proof.
  intros He. split.
  - eapply (exec_invariant PrefetchData.counted);
      [apply step_counted | apply init_counted | done].
  - by apply exec_frame in He as (-> & _).
Qed.

(** The first [length dps] data points the consumer gets are the beginning
    of the first pass. *)
Lemma conserved_order s0 dps st :
  direct_pass s0 dps ->
  PrefetchData.conserved s0 st ->
  take (length dps) (PrefetchData.out st) `prefix_of` dps.
Proof.
  intros Hpass (w & _ & Hr & Hout).
  assert (Hop : PrefetchData.out st
                `prefix_of` PrefetchProcess.puts (PrefetchProcess.log w)).
  { rewrite <- Hout. by apply prefix_app_r. }
  assert (Hcmp : PrefetchData.out st `prefix_of` dps \/
                 dps `prefix_of` PrefetchData.out st).
  { destruct (first_pass_order s0 dps w Hpass Hr) as [Hp|Hp].
    - left. by etrans.
    - eapply prefix_weak_total; done. }
  destruct Hcmp as [Hp|[more ->]].
  - etrans; [apply prefix_take|done].
  - by rewrite take_app_length.
Qed.

(** An empty queue has room, whatever its bound. *)
Lemma put_empty (dp : Dp) m :
  Queue.put dp {| Queue.maxsize := m; Queue.items := [] |}
  = Some {| Queue.maxsize := m; Queue.items := [dp] |}.
Proof.
  unfold Queue.put, Queue.full. cbn [Queue.maxsize Queue.items].
  assert (Hroom : (0 <? m) && (m <=? Z.of_nat (length (@nil Dp))) = false).
  { apply andb_false_iff. change (Z.of_nat (length (@nil Dp))) with 0. lia. }
  by rewrite Hroom.
Qed.

Lemma exec_cons l sched st st1 :
  PrefetchData.step l st = Some st1 ->
  PrefetchData.exec (l :: sched) st = PrefetchData.exec sched st1.
Proof. intros Hs. simpl. by rewrite Hs. Qed.

(** Serving the data points of a pass one at a time. *)
Lemma serve_pass s rest s' :
  one_pass s rest s' ->
  forall hp c wlog q_max k out,
    (0 < PrefetchData._size c ->
     k + Z.of_nat (length rest) <= PrefetchData._size c) ->
    exists st',
      PrefetchData.exec
        (concat (map (fun _ => [PrefetchData.Work 0; PrefetchData.Work 0;
                                PrefetchData.Pull]) rest))
        {| PrefetchData.heap := hp; PrefetchData.self := c;
           PrefetchData.workers :=
             [{| PrefetchProcess.ds := s;
                 PrefetchProcess.at_ := PrefetchProcess.AtFor;
                 PrefetchProcess.log := wlog |}];
           PrefetchData.queue :=
             {| Queue.maxsize := q_max; Queue.items := [] |};
           PrefetchData.k := k; PrefetchData.out := out;
           PrefetchData.stopped := false |}
      = Some st' /\
      PrefetchData.out st' = out ++ rest /\
      PrefetchData.k st' = k + Z.of_nat (length rest) /\
      PrefetchData.stopped st' = false /\
      PrefetchData.self st' = c.
Proof.
  induction 1 as [s s' Hnext|s dp s1 rest s' Hnext Hone IH];
    intros hp c wlog q_max k out Hsize.
  - eexists. split; [done|]. simpl. rewrite app_nil_r.
    split_and!; try done; lia.
  - simpl concat. simpl in Hsize.
    erewrite exec_cons;
      [|unfold PrefetchData.step, PrefetchProcess.run; simpl;
        rewrite Hnext; simpl; reflexivity].
    erewrite exec_cons;
      [|unfold PrefetchData.step, PrefetchProcess.run; cbn -[Queue.put];
        rewrite put_empty; reflexivity].
    erewrite exec_cons;
      [|unfold PrefetchData.step; simpl; rewrite get_data_yield by lia;
        reflexivity].
    destruct (IH hp c (wlog ++ [PrefetchProcess.EvPut dp]) q_max (k + 1)
                 (out ++ [dp])) as (st' & He & Ho & Hk & Hs & Hc).
    { simpl in Hsize. lia. }
    exists st'. split; [done|]. rewrite Ho, Hk, <- app_assoc. simpl.
    split_and!; try done; lia.
Qed.

(** C2: with one worker and a data flow whose count [N] is the length of
    its pass, the first [N] data points the coordinator yields are those of
    one direct pass over the data flow, in the same order: under every
    schedule what has been yielded so far is the beginning of the pass, it
    is all of the pass once [N] have been pulled, and the generator stops
    with exactly the pass; and some schedule does yield all of it. *)
Theorem single_worker_yields_the_pass hp ds nr_prefetch N (dps : list Dp) :
  ds_size (hp ds) = Some N ->
  direct_pass (hp ds) dps ->
  Z.of_nat (length dps) = N ->
  (forall sched st,
     PrefetchData.exec sched (PrefetchData.__init__ hp ds nr_prefetch 1)
     = Some st ->
     take (length dps) (PrefetchData.out st) `prefix_of` dps /\
     ((length dps <= length (PrefetchData.out st))%nat ->
      take (length dps) (PrefetchData.out st) = dps) /\
     (PrefetchData.stopped st = true -> PrefetchData.out st = dps)) /\
  (exists sched st,
     PrefetchData.exec sched (PrefetchData.__init__ hp ds nr_prefetch 1)
     = Some st /\
     PrefetchData.out st = dps).
Proof.
  intros Hsize Hpass Hlen. split.
  - intros sched st He.
    assert (Hcons : PrefetchData.conserved (hp ds) st).
    { eapply (exec_invariant (PrefetchData.conserved (hp ds)));
        [apply step_conserved | apply init_conserved | done]. }
    assert (Hcnt : PrefetchData.counted st).
    { eapply (exec_invariant PrefetchData.counted);
        [apply step_counted | apply init_counted | done]. }
    apply exec_frame in He as (Hself & _).
    pose proof (conserved_order _ _ _ Hpass Hcons) as Hpre.
    assert (Hfull : (length dps <= length (PrefetchData.out st))%nat ->
                    take (length dps) (PrefetchData.out st) = dps).
    { intros Hge. apply prefix_length_eq; [done|].
      rewrite length_take. lia. }
    split_and!; [done | done |].
    intros Hstop. destruct Hcnt as (Hk & Hle & Hs). specialize (Hs Hstop).
    rewrite Hself in Hs, Hle. simpl in Hs, Hle. rewrite Hsize in Hs, Hle.
    rewrite <- Hfull by lia. symmetry. apply take_ge. lia.
  - destruct Hpass as [s' Hpass].
    destruct (serve_pass _ _ _ Hpass hp
                (PrefetchData.self (PrefetchData.__init__ hp ds nr_prefetch 1))
                [PrefetchProcess.EvReset] nr_prefetch 0 [])
      as (st' & He & Ho & _).
    { simpl. rewrite Hsize. lia. }
    exists (PrefetchData.serve dps), st'. split; [|done].
    unfold PrefetchData.serve. rewrite <- He.
    change ([PrefetchData.Work 0; PrefetchData.Work 0] ++ ?l)
      with (PrefetchData.Work 0 :: PrefetchData.Work 0 :: l).
    erewrite exec_cons; [|reflexivity].
    erewrite exec_cons; [|reflexivity].
    reflexivity.
Qed.

(** *** Any number of workers: each on its own *)

Lemma alone_reachable n : forall s w w',
  PrefetchProcess.reachable s w ->
  PrefetchData.alone n w = Some w' ->
  PrefetchProcess.reachable s w'.
Proof.
  induction n as [|n IH]; intros s w w' Hr Ha; simpl in Ha.
  - by inversion Ha; subst.
  - destruct (PrefetchProcess.run w (Queue.new 0)) as [[w1 q1]|] eqn:Hrun;
      [|done].
    simpl in Ha. eapply IH; [|done]. by eapply PrefetchProcess.reach_step.
Qed.

(** Under any schedule, the state of worker [i] is what its own steps make
    of it: the steps of the others do not count. *)
Lemma exec_turns sched : forall st st' i w,
  PrefetchData.exec sched st = Some st' ->
  PrefetchData.workers st !! i = Some w ->
  exists w', PrefetchData.workers st' !! i = Some w' /\
             PrefetchData.alone (PrefetchData.turns i sched) w = Some w'.
Proof.
  induction sched as [|l sched IH]; intros st st' i w He Hw; simpl in He.
  - inversion He; subst. by exists w.
  - destruct (PrefetchData.step l st) as [st1|] eqn:Hs; [|done]. simpl in He.
    destruct l as [j|].
    + apply step_work in Hs as (wj & wj' & q' & Hj & Hrun & ->).
      unfold PrefetchData.turns; simpl.
      destruct (Nat.eqb_spec i j) as [->|Hne]; simpl.
      * rewrite Hj in Hw. inversion Hw; subst wj.
        destruct (run_any_queue _ _ _ _ (Queue.new 0) Hrun) as [q2 ->];
          [done|].
        simpl. eapply IH; [done|]. simpl.
        apply list_lookup_insert_eq. by eapply lookup_lt_Some.
      * eapply IH; [done|]. simpl. by rewrite list_lookup_insert_ne.
    + apply step_pull in Hs as (_ & _ & _ & Hws & _).
      unfold PrefetchData.turns; simpl.
      eapply IH; [done|]. by rewrite Hws.
Qed.


End system.

(** ** The coordinator over ZeroMQ *)

Section zmq.
Import PrefetchDataZMQ.
Context {Dp St Msg : Type} `{DataFlow Dp St}.


Lemma bind_value {A B} (m : M A) (f : A -> M B) evs1 a :
  m = (evs1, inr a) ->
  m ≫= f = (evs1 ++ fst (f a), snd (f a)).
Proof. intros ->. unfold mbind, M_bind, bind. by destruct (f a). Qed.

Lemma start_all_eq hs : forall i,
  start_proc_mask_signal i hs
  = (map EvStart (seq i (length hs)), inr (map start_handle hs)).
Proof.
  induction hs as [|h hs IH]; intros i; [done|].
  cbn [start_proc_mask_signal].
  rewrite (bind_value (emit (EvStart i)) _ [EvStart i] tt) by done.
  rewrite (bind_value _ _ _ _ (IH (S i))). simpl. by rewrite app_nil_r.
Qed.

Lemma terminate_all_eq hs : forall i,
  Forall (fun h => h_status h <> Initial) hs ->
  terminate_all i hs
  = (map EvTerminate (seq i (length hs)), inr (map set_terminated hs)).
Proof.
  induction hs as [|h hs IH]; intros i Hst; [done|].
  inversion Hst as [|? ? Hh Hhs]; subst.
  cbn [terminate_all].
  rewrite (bind_value (terminate i h) _ [EvTerminate i] (set_terminated h)).
  2:{ unfold terminate. by destruct (h_status h). }
  rewrite (bind_value _ _ _ _ (IH (S i) Hhs)). simpl. by rewrite app_nil_r.
Qed.


(** What [__del__] does to a coordinator whose processes were started. *)
Lemma del_eq e c :
  started c ->
  __del__ e c
  = ((if logger_ok e "Prefetch process exiting..."
      then [EvLog "Prefetch process exiting..."] else [])
     ++ (if closed c then [] else [EvDestroy 0])
     ++ map EvTerminate (seq 0 (length (procs c)))
     ++ (if logger_ok e "Prefetch process exited."
         then [EvLog "Prefetch process exited."] else []),
     inr {| ds := ds c; _size := _size c; nr_proc := nr_proc c;
            closed := true; hwm := hwm c; pipename := pipename c;
            procs := map set_terminated (procs c) |}).
Proof.
  intros Hst. unfold __del__, try_pass, logger_info.
  destruct c as [cds csize cnr cclosed chwm cname cprocs]; simpl in *.
  unfold started in Hst; simpl in Hst.
  pose proof (terminate_all_eq cprocs 0 Hst) as Ht.
  destruct (logger_ok e "Prefetch process exiting...");
    destruct (logger_ok e "Prefetch process exited.");
    destruct cclosed; simpl;
    unfold mbind, M_bind, bind; simpl; rewrite Ht; simpl;
    by rewrite ?app_nil_r.
Qed.


(** What the constructor does, by what it finds. *)
Lemma init_eq e (hp : nat -> St) ds nr_proc pipedir :
  let name := make_pipename pipedir (uuid1 e) in
  let h := {| h_ds := ds; h_conn_name := name; h_status := Initial |} in
  let n := Z.to_nat nr_proc in
  __init__ (Msg := Msg) e hp ds nr_proc pipedir
  = if isdir e pipedir then
      if bind_ok e name then
        ([EvContext; EvSocket; EvSetHwm 5; EvBind name]
           ++ map EvStart (seq 0 n) ++ [EvAtexit],
         inr {| self :=
                  {| ds := ds;
                     _size := match ds_size (hp ds) with
                              | Some n => n
                              | None => -1
                              end;
                     nr_proc := nr_proc; closed := false; hwm := 5;
                     pipename := name;
                     procs := map start_handle (replicate n h) |};
                workers :=
                  map (fun h => PrefetchProcessZMQ.start (hp (h_ds h))
                                                         (h_conn_name h))
                      (replicate n h) |})
      else ([EvContext; EvSocket; EvSetHwm 5], inl ZMQError)
    else ([EvContext; EvSocket], inl AssertionError).
Proof.
  intros name h n. unfold __init__, assert.
  fold name. fold h. fold n.
  destruct (isdir e pipedir); [|done].
  destruct (bind_ok e name); [|done].
  pose proof (start_all_eq (replicate n h) 0) as Hs.
  rewrite length_replicate in Hs.
  unfold mbind, M_bind, bind; simpl. rewrite Hs. done.
Qed.

Lemma init_started e (hp : nat -> St) ds nr_proc pipedir evs
      (sys : system Dp St Msg) :
  __init__ e hp ds nr_proc pipedir = (evs, inr sys) ->
  started (self sys).
Proof.
  rewrite init_eq. destruct (isdir e pipedir); [|done].
  destruct (bind_ok e _); [|done]. intros Hi; inversion Hi; subst.
  unfold started; simpl. apply Forall_fmap, Forall_replicate. done.
Qed.

(** C9: when [pipedir] is not a directory the constructor raises
    [AssertionError] having only created the context and the socket: it has
    bound nothing, started no process and tried nothing twice.  When
    [pipedir] is a directory the assertion does not fail, and the constructor
    succeeds whenever [bind] does. *)
Theorem init_asserts_pipedir e (hp : nat -> St) ds nr_proc pipedir :
  (isdir e pipedir = false ->
   __init__ (Msg := Msg) e hp ds nr_proc pipedir
   = ([EvContext; EvSocket], inl AssertionError) /\
   forall i, EvStart i ∉ (__init__ (Msg := Msg) e hp ds nr_proc pipedir).1) /\
  (isdir e pipedir = true ->
   (__init__ (Msg := Msg) e hp ds nr_proc pipedir).2 <> inl AssertionError /\
   (bind_ok e (make_pipename pipedir (uuid1 e)) = true ->
    exists evs sys,
      __init__ (Msg := Msg) e hp ds nr_proc pipedir = (evs, inr sys))).
Proof.
  rewrite init_eq. split; intros ->.
  - split; [done|]. intros i Hi. simpl in Hi.
    apply elem_of_cons in Hi as [Hi|Hi]; [done|].
    apply elem_of_cons in Hi as [Hi|Hi]; [done|]. inversion Hi.
  - split.
    + by destruct (bind_ok e _).
    + intros ->. eauto.
Qed.

(** C4: on a coordinator whose processes were started, [__del__] raises
    nothing, however often it is called and whatever the logger does; a
    second call leaves the coordinator as the first one left it, and does
    not destroy the context again. *)
Theorem del_twice e1 e2 c :
  started c ->
  exists evs1 c1 evs2,
    __del__ e1 c = (evs1, inr c1) /\
    __del__ e2 c1 = (evs2, inr c1) /\
    started c1 /\
    (forall linger, EvDestroy linger ∉ evs2) /\
    (closed c = true -> forall linger, EvDestroy linger ∉ evs1).
Proof.
  intros Hst.
  assert (Hst1 : forall c0, started c0 ->
            started {| ds := ds c0; _size := _size c0; nr_proc := nr_proc c0;
                       closed := true; hwm := hwm c0; pipename := pipename c0;
                       procs := map set_terminated (procs c0) |}).
  { intros c0 _. unfold started; simpl. apply Forall_fmap, Forall_true. done. }
  assert (Hnd : forall (e : env) n linger,
            EvDestroy linger
            ∉ (if logger_ok e "Prefetch process exiting..."
               then [EvLog "Prefetch process exiting..."] else [])
              ++ [] ++ map EvTerminate (seq 0 n)
              ++ (if logger_ok e "Prefetch process exited."
                  then [EvLog "Prefetch process exited."] else [])).
  { intros e n linger Hd.
    repeat (apply elem_of_app in Hd as [Hd|Hd]).
    - destruct (logger_ok e _); [|inversion Hd].
      apply list_elem_of_singleton in Hd. done.
    - inversion Hd.
    - apply list_elem_of_fmap in Hd as (i & Hi & _). done.
    - destruct (logger_ok e _); [|inversion Hd].
      apply list_elem_of_singleton in Hd. done. }
  do 3 eexists. split; [by apply del_eq|].
  split; [|split; [by apply Hst1|split]].
  - rewrite del_eq by by apply Hst1. simpl. f_equal. f_equal. f_equal.
    rewrite <- list_fmap_compose. done.
  - intros linger. rewrite length_map. apply Hnd.
  - intros -> linger. apply Hnd.
Qed.

(** C5: on a coordinator whose processes were started, [__del__] returns
    normally whether or not the logger works; afterwards the context is
    destroyed, with linger 0 and by this call if it was still open, and
    every process has been sent its termination signal and is
    terminated. *)
Theorem del_completes_without_logger e c :
  started c ->
  exists evs c',
    __del__ e c = (evs, inr c') /\
    closed c' = true /\
    (closed c = false -> EvDestroy 0 ∈ evs) /\
    (forall linger, EvDestroy linger ∈ evs -> linger = 0) /\
    length (procs c') = length (procs c) /\
    Forall (fun h => h_status h = Terminated) (procs c') /\
    (forall i, (i < length (procs c))%nat -> EvTerminate i ∈ evs) /\
    (forall msg, logger_ok e msg = false -> EvLog msg ∉ evs).
Proof.
  intros Hst. do 2 eexists. split; [by apply del_eq|]. simpl.
  split_and!.
  - done.
  - intros ->. apply elem_of_app. right. apply elem_of_app. left.
    by apply list_elem_of_singleton.
  - intros linger Hd.
    repeat (apply elem_of_app in Hd as [Hd|Hd]).
    + destruct (logger_ok e _); [|inversion Hd].
      apply list_elem_of_singleton in Hd. done.
    + destruct (closed c); [inversion Hd|].
      apply list_elem_of_singleton in Hd. by inversion Hd.
    + apply list_elem_of_fmap in Hd as (i & Hi & _). done.
    + destruct (logger_ok e _); [|inversion Hd].
      apply list_elem_of_singleton in Hd. done.
  - by rewrite length_map.
  - apply Forall_fmap, Forall_true. done.
  - intros i Hi. apply elem_of_app. right. apply elem_of_app. right.
    apply elem_of_app. left. apply list_elem_of_fmap. exists i.
    split; [done|]. apply elem_of_seq. lia.
  - intros msg Hmsg Hd.
    repeat (apply elem_of_app in Hd as [Hd|Hd]).
    + destruct (logger_ok e "Prefetch process exiting...") eqn:Hok;
        [|inversion Hd].
      apply list_elem_of_singleton in Hd. inversion Hd; subst. congruence.
    + destruct (closed c); [inversion Hd|].
      apply list_elem_of_singleton in Hd. done.
    + apply list_elem_of_fmap in Hd as (i & Hi & _). done.
    + destruct (logger_ok e "Prefetch process exited.") eqn:Hok;
        [|inversion Hd].
      apply list_elem_of_singleton in Hd. inversion Hd; subst. congruence.
Qed.

End zmq.

(** ** Both coordinators *)

Section coordinators.
Context {Dp St Msg : Type} `{DataFlow Dp St} (dumps : Dp -> Msg)
        (loads : Msg -> Dp).

(** C1: when the stored size is a positive [N], the generator of
    [get_data] yields [N] data points and then stops: it never yields more,
    it stops only after exactly [N], and it does yield the first [N] that
    arrive and stop at the next pull, leaving what else has arrived unread.
    When the stored size is -1 the generator never stops, and every pull
    yields the next data point that has arrived.  So it is with the workers
    running, however many and under every schedule: with [ds.size() = N > 0]
    the coordinator has yielded at most [N] and exactly [N] once stopped;
    when [ds.size()] raises, the stored size is -1 and it never stops. *)
Theorem get_data_yields_size_or_forever :
  (forall hp ds nr_prefetch nr_proc sched (st : PrefetchData.system Dp St),
     PrefetchData.exec sched (PrefetchData.__init__ hp ds nr_prefetch nr_proc)
     = Some st ->
     (forall N, ds_size (hp ds) = Some N -> 0 < N ->
        Z.of_nat (length (PrefetchData.out st)) <= N /\
        (PrefetchData.stopped st = true ->
         Z.of_nat (length (PrefetchData.out st)) = N)) /\
     (ds_size (hp ds) = None ->
      PrefetchData._size (PrefetchData.self st) = -1 /\
      PrefetchData.stopped st = false)) /\
  (forall N, 0 < N ->
     (forall n (q : Queue.t Dp) dps k' q' stop,
        PrefetchData.pull n N 0 q = (dps, k', q', stop) ->
        Z.of_nat (length dps) <= N /\
        (stop = true -> Z.of_nat (length dps) = N)) /\
     (forall extra m (its : list Dp),
        (Z.to_nat N <= length its)%nat ->
        PrefetchData.pull (Z.to_nat N + S extra) N 0
                          {| Queue.maxsize := m; Queue.items := its |}
        = (take (Z.to_nat N) its, N,
           {| Queue.maxsize := m; Queue.items := drop (Z.to_nat N) its |},
           true)) /\
     (forall n (inbox : list Msg) dps k' inbox' stop,
        PrefetchDataZMQ.pull loads n N 0 inbox = (dps, k', inbox', stop) ->
        Z.of_nat (length dps) <= N /\
        (stop = true -> Z.of_nat (length dps) = N)) /\
     (forall extra (inbox : list Msg),
        (Z.to_nat N <= length inbox)%nat ->
        PrefetchDataZMQ.pull loads (Z.to_nat N + S extra) N 0 inbox
        = (map loads (take (Z.to_nat N) inbox), N,
           drop (Z.to_nat N) inbox, true))) /\
  ((forall k (q : Queue.t Dp),
      PrefetchData.get_data (-1) k q <> PrefetchData.StopIteration) /\
   (forall n k m (its : list Dp),
      (n <= length its)%nat ->
      PrefetchData.pull n (-1) k {| Queue.maxsize := m; Queue.items := its |}
      = (take n its, k + Z.of_nat n,
         {| Queue.maxsize := m; Queue.items := drop n its |}, false)) /\
   (forall k (inbox : list Msg),
      PrefetchDataZMQ.get_data loads (-1) k inbox
      <> PrefetchDataZMQ.StopIteration) /\
   (forall n k (inbox : list Msg),
      (n <= length inbox)%nat ->
      PrefetchDataZMQ.pull loads n (-1) k inbox
      = (map loads (take n inbox), k + Z.of_nat n, drop n inbox, false))).
Proof.
  split; [|split; [intros N HN; split_and! | split_and!]].
  - intros hp ds nr_prefetch nr_proc sched st He.
    apply exec_counted in He as ((Hk & Hle & Hstop) & Hsize).
    rewrite Hsize in Hle, Hstop. split.
    + intros N HN Hpos. rewrite HN in Hle, Hstop. split; [lia|].
      intros Hs. specialize (Hstop Hs). lia.
    + intros HN. rewrite HN in Hsize, Hstop. split; [done|].
      destruct (PrefetchData.stopped st); [|done].
      specialize (Hstop eq_refl). lia.
  - intros n q dps k' q' stop Hp.
    apply pull_sound in Hp as (-> & _ & _ & Hstop & Hle).
    split; [lia|]. intros Hs. specialize (Hstop Hs). lia.
  - intros extra m its Hlen. apply pull_stops; [done | lia | done].
  - intros n inbox dps k' inbox' stop Hp.
    apply pull_zmq_sound in Hp as (-> & _ & Hstop & Hle).
    split; [lia|]. intros Hs. specialize (Hstop Hs). lia.
  - intros extra inbox Hlen. apply pull_zmq_stops; [done | lia | done].
  - intros k q Hs. apply get_data_stop in Hs. lia.
  - intros n k m its Hlen. apply pull_yields; [done|lia].
  - intros k inbox Hs. apply get_data_zmq_stop in Hs. lia.
  - intros n k inbox Hlen. apply pull_zmq_yields; [done|lia].
Qed.

(** C10: a stored size of 0 does not stop the generator of [get_data]: at
    every counter it does what it does for the size -1, it never raises
    [StopIteration], it blocks on an empty transport and it yields whatever
    has arrived, for as many pulls as there are data points.  With the
    workers running, a coordinator built on a data flow whose [size()] is 0
    stores 0 and has not stopped under any schedule. *)
Theorem get_data_size_zero_never_stops :
  (forall hp ds nr_prefetch nr_proc sched (st : PrefetchData.system Dp St),
     ds_size (hp ds) = Some 0 ->
     PrefetchData.exec sched (PrefetchData.__init__ hp ds nr_prefetch nr_proc)
     = Some st ->
     PrefetchData._size (PrefetchData.self st) = 0 /\
     PrefetchData.stopped st = false) /\
  (forall k (q : Queue.t Dp),
     PrefetchData.get_data 0 k q = PrefetchData.get_data (-1) k q /\
     PrefetchData.get_data 0 k q <> PrefetchData.StopIteration) /\
  (forall k m,
     PrefetchData.get_data 0 k {| Queue.maxsize := m; Queue.items := [] |}
     = @PrefetchData.Blocked Dp) /\
  (forall n k (q : Queue.t Dp),
     (PrefetchData.pull n 0 k q).2 = false) /\
  (forall n k m (its : list Dp),
     PrefetchData.pull (length its + n) 0 k
                       {| Queue.maxsize := m; Queue.items := its |}
     = (its, k + Z.of_nat (length its),
        {| Queue.maxsize := m; Queue.items := [] |}, false)) /\
  (forall k (inbox : list Msg),
     PrefetchDataZMQ.get_data loads 0 k inbox
     = PrefetchDataZMQ.get_data loads (-1) k inbox /\
     PrefetchDataZMQ.get_data loads 0 k inbox
     <> PrefetchDataZMQ.StopIteration) /\
  (forall k,
     PrefetchDataZMQ.get_data loads 0 k []
     = @PrefetchDataZMQ.Blocked Dp Msg) /\
  (forall n k (inbox : list Msg),
     (PrefetchDataZMQ.pull loads n 0 k inbox).2 = false) /\
  (forall n k (inbox : list Msg),
     PrefetchDataZMQ.pull loads (length inbox + n) 0 k inbox
     = (map loads inbox, k + Z.of_nat (length inbox), [], false)).
Proof.
  split_and!.
  - intros hp ds nr_prefetch nr_proc sched st H0 He.
    apply exec_counted in He as ((_ & _ & Hstop) & Hsize).
    rewrite H0 in Hsize. rewrite Hsize in Hstop. split; [done|].
    destruct (PrefetchData.stopped st); [|done].
    specialize (Hstop eq_refl). lia.
  - intros k q. split; [done|]. intros Hs. apply get_data_stop in Hs. lia.
  - done.
  - intros n k q.
    destruct (PrefetchData.pull n 0 k q) as [[[dps k'] q'] stop] eqn:Hp.
    apply pull_sound in Hp as (_ & _ & _ & Hstop & _). simpl.
    destruct stop; [|done]. specialize (Hstop eq_refl). lia.
  - intros n k m its. revert k.
    induction its as [|x its IH]; intros k.
    + destruct n; simpl; by rewrite Z.add_0_r.
    + cbn [length Nat.add PrefetchData.pull].
      rewrite get_data_yield by lia. rewrite IH. simpl.
      do 3 f_equal. lia.
  - intros k inbox. split; [done|].
    intros Hs. apply get_data_zmq_stop in Hs. lia.
  - done.
  - intros n k inbox.
    destruct (PrefetchDataZMQ.pull loads n 0 k inbox)
      as [[[dps k'] in'] stop] eqn:Hp.
    apply pull_zmq_sound in Hp as (_ & _ & Hstop & _). simpl.
    destruct stop; [|done]. specialize (Hstop eq_refl). lia.
  - intros n k inbox. revert k.
    induction inbox as [|x inbox IH]; intros k.
    + destruct n; simpl; by rewrite Z.add_0_r.
    + cbn [length Nat.add PrefetchDataZMQ.pull].
      rewrite get_data_zmq_yield by lia. rewrite IH. simpl.
      do 3 f_equal. lia.
Qed.



End coordinators.

(** ** The address of the pipe *)

Section pipename.
Import PrefetchDataZMQ.
Local Open Scope string_scope.

Lemma length_append (s1 s2 : string) :
  String.length (s1 ++ s2) = (String.length s1 + String.length s2)%nat.
Proof. induction s1 as [|a s1 IH]; simpl; congruence. Qed.

Lemma append_inv_head (s a b : string) : s ++ a = s ++ b -> a = b.
Proof.
  induction s as [|c s IH]; simpl; intros Heq; [done|].
  inversion Heq. auto.
Qed.

(** Two strings that end in parts of the same length are equal part by
    part. *)
Lemma append_inv_tail (a b s1 s2 : string) :
  String.length s1 = String.length s2 ->
  a ++ s1 = b ++ s2 -> a = b /\ s1 = s2.
Proof.
  revert b. induction a as [|c a IH]; intros b Hlen Heq.
  - destruct b as [|d b]; [done|]. simpl in Heq.
    apply (f_equal String.length) in Heq. simpl in Heq.
    rewrite length_append in Heq. lia.
  - destruct b as [|d b]; simpl in Heq.
    + apply (f_equal String.length) in Heq. simpl in Heq.
      rewrite length_append in Heq. lia.
    + inversion Heq; subst. destruct (IH b Hlen) as [-> ->]; done.
Qed.

Lemma length_hex w n : String.length (hex w n) = w.
Proof. induction w as [|w IH]; simpl; congruence. Qed.

Lemma hex_digit_inj a b :
  (0 <= a < 16)%Z -> (0 <= b < 16)%Z -> hex_digit a = hex_digit b -> a = b.
Proof.
  intros Ha Hb.
  assert (Hcases : forall x, (0 <= x < 16)%Z ->
            (x = 0 \/ x = 1 \/ x = 2 \/ x = 3 \/ x = 4 \/ x = 5 \/ x = 6 \/
             x = 7 \/ x = 8 \/ x = 9 \/ x = 10 \/ x = 11 \/ x = 12 \/
             x = 13 \/ x = 14 \/ x = 15)%Z) by (intros; lia).
  destruct (Hcases a Ha) as [->|[->|[->|[->|[->|[->|[->|[->|[->|[->|[->|[->|
    [->|[->|[->| ->]]]]]]]]]]]]]]];
  destruct (Hcases b Hb) as [->|[->|[->|[->|[->|[->|[->|[->|[->|[->|[->|[->|
    [->|[->|[->| ->]]]]]]]]]]]]]]];
  simpl; intros Heq; try reflexivity; discriminate Heq.
Qed.

(** [hex w] tells the last [w] hex digits of a number, and nothing else. *)
Lemma hex_inj w : forall x y,
  hex w x = hex w y <->
  (x mod 16 ^ Z.of_nat w = y mod 16 ^ Z.of_nat w)%Z.
Proof.
  induction w as [|w IH]; intros x y.
  - simpl. rewrite !Z.mod_1_r. done.
  - cbn [hex]. rewrite Nat2Z.inj_succ, Z.pow_succ_r by lia.
    rewrite (Z.mul_comm 16).
    assert (Hp : (0 < 16 ^ Z.of_nat w)%Z) by (apply Z.pow_pos_nonneg; lia).
    rewrite !Z.rem_mul_r by lia. split.
    + intros Heq. inversion Heq as [[Hd Ht]].
      apply IH in Ht. apply hex_digit_inj in Hd;
        [lia | apply Z.mod_pos_bound; lia | apply Z.mod_pos_bound; lia].
    + intros Heq.
      pose proof (Z.mod_pos_bound x (16 ^ Z.of_nat w) Hp).
      pose proof (Z.mod_pos_bound y (16 ^ Z.of_nat w) Hp).
      pose proof (Z.mod_pos_bound (x / 16 ^ Z.of_nat w) 16 eq_refl).
      pose proof (Z.mod_pos_bound (y / 16 ^ Z.of_nat w) 16 eq_refl).
      assert (Hd : ((x / 16 ^ Z.of_nat w) mod 16
                    = (y / 16 ^ Z.of_nat w) mod 16)%Z) by nia.
      assert (Ht : (x mod 16 ^ Z.of_nat w = y mod 16 ^ Z.of_nat w)%Z) by nia.
      apply IH in Ht. by rewrite Hd, Ht.
Qed.

(** The six characters the address takes from the identifier are its first
    six hex digits. *)
Lemma uuid_prefix u :
  substring 0 6 (uuid.str u) = hex 6 (uuid.int u / 16 ^ 26).
Proof.
  unfold uuid.str. cbn [hex substring append].
  repeat (f_equal; [f_equal; rewrite Z.div_div by lia; reflexivity|]).
  do 2 f_equal. rewrite Z.div_div by lia. reflexivity.
Qed.

(** In a time-based identifier those digits are bits 8 to 31 of the
    timestamp: the clock sequence, the node and the rest of the timestamp
    come later in the string. *)
Lemma uuid1_top_bits ts cs node :
  (0 <= node < 2 ^ 48)%Z ->
  ((uuid.int (uuid.uuid1 ts cs node) / 16 ^ 26) mod 16 ^ 6
   = (ts / 2 ^ 8) mod 2 ^ 24)%Z.
Proof.
  intros Hnode.
  change (16 ^ 26)%Z with (2 ^ 104)%Z. change (16 ^ 6)%Z with (2 ^ 24)%Z.
  rewrite <- Z.shiftr_div_pow2 by lia.
  unfold uuid.uuid1, uuid.of_fields. cbn [uuid.int].
  repeat (rewrite Z.shiftr_lor || rewrite Z.shiftr_ldiff).
  rewrite !Z.shiftr_shiftl_r by lia.
  repeat (rewrite Z.shiftr_lor || rewrite Z.shiftr_land).
  rewrite !Z.shiftr_shiftl_r by lia.
  rewrite !Z.shiftr_land.
  change (Z.shiftr 65535 (104 - 80)) with 0%Z.
  change (Z.shiftr 4095 (104 - 64)) with 0%Z.
  change (Z.shiftr 63 (104 - 48 - 8)) with 0%Z.
  change (Z.shiftr 255 (104 - 48)) with 0%Z.
  change (Z.shiftr 49152 (104 - 48)) with 0%Z.
  change (Z.shiftr 32768 (104 - 48)) with 0%Z.
  change (Z.shiftr 61440 (104 - 64)) with 0%Z.
  change (Z.shiftr 1 (104 - 76)) with 0%Z.
  change (Z.shiftr 4294967295 (104 - 96)) with (Z.ones 24).
  rewrite ?Z.land_0_r, ?Z.lor_0_r, ?Z.ldiff_0_r.
  rewrite (Z.shiftr_div_pow2 node), (Z.div_small node) by lia.
  rewrite ?Z.lor_0_r, ?Z.ldiff_0_r, ?Z.lor_0_r, ?Z.ldiff_0_r, ?Z.lor_0_r.
  rewrite Z.land_ones by lia. change (104 - 96)%Z with 8%Z.
  rewrite Z.shiftr_div_pow2 by lia. apply Z.mod_mod. lia.
Qed.

(** Two addresses are the same when the directories are the same once
    their trailing slashes are gone and the identifiers start with the same
    six hex digits, and only then. *)
Lemma make_pipename_eq d1 d2 u1 u2 :
  make_pipename d1 u1 = make_pipename d2 u2 <->
  rstrip "/" d1 = rstrip "/" d2 /\
  ((uuid.int u1 / 16 ^ 26) mod 16 ^ 6
   = (uuid.int u2 / 16 ^ 26) mod 16 ^ 6)%Z.
Proof.
  unfold make_pipename. rewrite !uuid_prefix.
  change (16 ^ 6)%Z with (16 ^ Z.of_nat 6)%Z. rewrite <- hex_inj. split.
  - intros Heq. apply append_inv_tail in Heq as [Heq Hsuf];
      [|by rewrite !length_hex].
    split; [|done]. apply append_inv_head in Heq.
    by apply append_inv_tail in Heq as [Heq _].
  - by intros [-> ->].
Qed.

(** C6, as the code has it: the address is made of the directory without
    its trailing slashes and of the first six hex digits of the identifier,
    so two coordinators get the same address exactly when they agree on
    both; with identifiers from [uuid1] the six digits are bits 8 to 31 of
    the timestamp, whatever the node and clock sequence.  Hence the
    addresses of two coordinators are distinct as soon as their directories
    differ after stripping or their timestamps differ in those bits. *)
Theorem pipename_collides_iff :
  (forall d1 d2 u1 u2,
     make_pipename d1 u1 = make_pipename d2 u2 <->
     rstrip "/" d1 = rstrip "/" d2 /\
     ((uuid.int u1 / 2 ^ 104) mod 2 ^ 24
      = (uuid.int u2 / 2 ^ 104) mod 2 ^ 24)%Z) /\
  (forall d1 d2 ts1 cs1 node1 ts2 cs2 node2,
     (0 <= node1 < 2 ^ 48)%Z -> (0 <= node2 < 2 ^ 48)%Z ->
     make_pipename d1 (uuid.uuid1 ts1 cs1 node1)
     = make_pipename d2 (uuid.uuid1 ts2 cs2 node2) <->
     rstrip "/" d1 = rstrip "/" d2 /\
     ((ts1 / 2 ^ 8) mod 2 ^ 24 = (ts2 / 2 ^ 8) mod 2 ^ 24)%Z).
Proof.
  split.
  - intros d1 d2 u1 u2. apply make_pipename_eq.
  - intros d1 d2 ts1 cs1 node1 ts2 cs2 node2 Hn1 Hn2.
    rewrite make_pipename_eq. by rewrite !uuid1_top_bits.
Qed.

End pipename.

(** ** Examples *)

Lemma pass_of_sound {Dp St} `{DataFlow Dp St} fuel : forall s dps s',
  pass_of fuel s = Some (dps, s') -> one_pass s dps s'.
Proof.
  induction fuel as [|fuel IH]; intros s dps s' Hp; simpl in Hp; [done|].
  destruct (ds_next s) as [[dp|] s1] eqn:Hn.
  - destruct (pass_of fuel s1) as [[dps1 s2]|] eqn:Hr; [|done].
    inversion Hp; subst. eapply pass_more; eauto.
  - inversion Hp; subst. by apply pass_done.
Qed.

Lemma five_direct_pass : direct_pass (five_heap 0%nat) [0; 1; 2; 3; 4].
Proof. eexists. by apply (pass_of_sound 6). Qed.


(** [example_coordinator] is what the constructor builds for two workers on
    ["/tmp"]. *)
Lemma example_coordinator_built :
  exists evs sys,
    PrefetchDataZMQ.__init__ (Msg := Z) (example_env true true) five_heap
                             0%nat 2 "/tmp"
    = (evs, inr sys) /\
    PrefetchDataZMQ.self sys = example_coordinator.
Proof. do 2 eexists. split; reflexivity. Qed.

Lemma example_coordinator_started :
  PrefetchDataZMQ.started example_coordinator.
Proof.
  destruct example_coordinator_built as (evs & sys & Hi & <-).
  by eapply init_started.
Qed.

(** The generator over a queue of four with size 3: three data points, then
    it stops and the fourth stays in the queue. *)
Lemma get_data_yields_size_or_forever_witness :
  0 < 3 /\
  PrefetchData.pull 4 3 0 {| Queue.maxsize := 2;
                             Queue.items := [10; 11; 12; 13] |}
  = ([10; 11; 12], 3, {| Queue.maxsize := 2; Queue.items := [13] |}, true).
Proof.
  split; [lia|].
  destruct (get_data_yields_size_or_forever (St := list_flow) (@id Z))
    as (_ & HN & _).
  destruct (HN 3 ltac:(lia)) as (_ & Hq & _).
  exact (Hq 0%nat 2 [10; 11; 12; 13] ltac:(simpl; lia)).
Defined.

(** The example of the specification: five integers, one worker, a queue of
    two. *)
Lemma single_worker_yields_the_pass_witness :
  ds_size (five_heap 0%nat) = Some 5 /\
  direct_pass (five_heap 0%nat) [0; 1; 2; 3; 4] /\
  Z.of_nat (length [0; 1; 2; 3; 4]) = 5 /\
  exists sched st,
    PrefetchData.exec sched (PrefetchData.__init__ five_heap 0%nat 2 1)
    = Some st /\
    PrefetchData.out st = [0; 1; 2; 3; 4].
Proof.
  split; [reflexivity|]. split; [exact five_direct_pass|].
  split; [reflexivity|].
  exact (proj2 (single_worker_yields_the_pass
                  five_heap 0%nat 2 5 [0; 1; 2; 3; 4]
                  eq_refl five_direct_pass eq_refl)).
Defined.


Lemma del_twice_witness :
  PrefetchDataZMQ.started example_coordinator /\
  exists evs1 c1 evs2,
    PrefetchDataZMQ.__del__ (example_env true false) example_coordinator
    = (evs1, inr c1) /\
    PrefetchDataZMQ.__del__ (example_env true true) c1 = (evs2, inr c1) /\
    PrefetchDataZMQ.started c1 /\
    (forall linger, PrefetchDataZMQ.EvDestroy linger ∉ evs2) /\
    (PrefetchDataZMQ.closed example_coordinator = true ->
     forall linger, PrefetchDataZMQ.EvDestroy linger ∉ evs1).
Proof.
  split; [exact example_coordinator_started|].
  exact (del_twice (example_env true false) (example_env true true)
                   example_coordinator example_coordinator_started).
Defined.

Lemma del_completes_without_logger_witness :
  PrefetchDataZMQ.started example_coordinator /\
  exists evs c',
    PrefetchDataZMQ.__del__ (example_env true false) example_coordinator
    = (evs, inr c') /\
    PrefetchDataZMQ.closed c' = true /\
    PrefetchDataZMQ.EvDestroy 0 ∈ evs /\
    Forall (fun h => PrefetchDataZMQ.h_status h = PrefetchDataZMQ.Terminated)
           (PrefetchDataZMQ.procs c').
Proof.
  split; [exact example_coordinator_started|].
  destruct (del_completes_without_logger (example_env true false)
              example_coordinator example_coordinator_started)
    as (evs & c' & Hd & Hc & Hdes & _ & _ & Ht & _).
  exists evs, c'. split; [exact Hd|]. split; [exact Hc|].
  split; [exact (Hdes eq_refl) | exact Ht].
Defined.

Lemma init_asserts_pipedir_witness :
  PrefetchDataZMQ.isdir (example_env false true) "/no/such/dir" = false /\
  PrefetchDataZMQ.__init__ (Msg := Z) (example_env false true) five_heap
                           0%nat 2 "/no/such/dir"
  = ([PrefetchDataZMQ.EvContext; PrefetchDataZMQ.EvSocket],
     inl PrefetchDataZMQ.AssertionError).
Proof.
  split; [reflexivity|].
  exact (proj1 (proj1 (init_asserts_pipedir (Msg := Z) (example_env false true)
                         five_heap 0%nat 2 "/no/such/dir") eq_refl)).
Defined.

(** Coordinators created one tick apart, one on ["/tmp"] and one on
    ["/tmp/"], get the same address. *)
Lemma pipename_collides_iff_witness :
  0 <= 0x0242ac110002 < 2 ^ 48 /\
  PrefetchDataZMQ.make_pipename "/tmp" uuid_a
  = PrefetchDataZMQ.make_pipename "/tmp/" uuid_b.
Proof.
  split; [lia|].
  apply (proj2 pipename_collides_iff "/tmp"%string "/tmp/"%string
               0x1ed9f3c5a7b1200 0x1234 0x0242ac110002
               0x1ed9f3c5a7b1201 0x2abc 0x0242ac110002);
    [lia | lia | split; reflexivity].
Defined.

(** C6 as the specification states it does not hold: two coordinators with
    different identifiers need not have different addresses. *)
Lemma pipename_collision :
  ~ (forall d1 d2 u1 u2,
       u1 <> u2 ->
       PrefetchDataZMQ.make_pipename d1 u1
       <> PrefetchDataZMQ.make_pipename d2 u2).
Proof.
  intros Hclaim.
  apply (Hclaim "/tmp"%string "/tmp/"%string uuid_a uuid_b).
  - intros Heq. apply (f_equal uuid.int) in Heq. vm_compute in Heq.
    discriminate Heq.
  - reflexivity.
Qed.

Lemma get_data_size_zero_never_stops_witness :
  ds_size nothing = Some 0 /\
  PrefetchData.exec [PrefetchData.Work 0; PrefetchData.Work 0;
                     PrefetchData.Work 0]
                    (PrefetchData.__init__ (fun _ => nothing) 0%nat 2 1)
  = Some example_idle /\
  PrefetchData._size (PrefetchData.self example_idle) = 0 /\
  PrefetchData.stopped example_idle = false.
Proof.
  split; [reflexivity|]. split; [reflexivity|].
  exact (proj1 (get_data_size_zero_never_stops (@id Z))
               (fun _ => nothing) 0%nat 2 1
               [PrefetchData.Work 0; PrefetchData.Work 0; PrefetchData.Work 0]
               example_idle eq_refl eq_refl).
Defined.



(** * Further properties *)

(** ** Many workers over the queue *)

Section many_workers.
Context {Dp St : Type} `{DataFlow Dp St}.

Implicit Types (st : PrefetchData.system Dp St) (w : PrefetchProcess.t Dp St).

(** What all workers have put, around the worker at [i]. *)
Lemma all_puts_around (ws : list (PrefetchProcess.t Dp St)) i w w' :
  ws !! i = Some w ->
  PrefetchData.all_puts ws
  = PrefetchData.all_puts (take i ws)
    ++ PrefetchProcess.puts (PrefetchProcess.log w)
    ++ PrefetchData.all_puts (drop (S i) ws) /\
  PrefetchData.all_puts (<[i := w']> ws)
  = PrefetchData.all_puts (take i ws)
    ++ PrefetchProcess.puts (PrefetchProcess.log w')
    ++ PrefetchData.all_puts (drop (S i) ws).
Proof.
  intros Hw. unfold PrefetchData.all_puts. split.
  - rewrite <- (take_drop_middle ws i w Hw) at 1.
    by rewrite map_app, concat_app.
  - rewrite insert_take_drop by (by eapply lookup_lt_Some).
    by rewrite map_app, concat_app.
Qed.

Lemma step_loses_nothing l st st' :
  PrefetchData.out st ++ Queue.items (PrefetchData.queue st)
  ≡ₚ PrefetchData.all_puts (PrefetchData.workers st) ->
  PrefetchData.step l st = Some st' ->
  PrefetchData.out st' ++ Queue.items (PrefetchData.queue st')
  ≡ₚ PrefetchData.all_puts (PrefetchData.workers st').
Proof.
  intros Hinv Hstep. destruct l as [i|].
  - apply step_work in Hstep as (w & w' & q' & Hw & Hrun & ->); simpl.
    destruct (all_puts_around _ i w w' Hw) as [Hold Hnew].
    rewrite Hnew. rewrite Hold in Hinv.
    apply run_queue in Hrun
      as [[[-> ->]|[-> ->]]|(dp & _ & _ & -> & ->)]; simpl.
    + done.
    + by rewrite puts_app, app_nil_r.
    + rewrite puts_app; simpl. rewrite app_assoc, Hinv.
      rewrite <- !app_assoc. do 2 f_equiv. apply Permutation_app_comm.
  - apply step_pull in Hstep
      as (_ & _ & _ & -> & [(_ & -> & _ & -> & _)
                           |(dp & _ & Hits & _ & _ & -> & _)]); [done|].
    rewrite Hits in Hinv. by rewrite <- app_assoc.
Qed.

Lemma step_keeps_order l st st' :
  (forall i w, PrefetchData.workers st !! i = Some w ->
     PrefetchProcess.puts (PrefetchProcess.log w)
     `sublist_of` PrefetchData.out st
                  ++ Queue.items (PrefetchData.queue st)) ->
  PrefetchData.step l st = Some st' ->
  forall i w, PrefetchData.workers st' !! i = Some w ->
    PrefetchProcess.puts (PrefetchProcess.log w)
    `sublist_of` PrefetchData.out st'
                 ++ Queue.items (PrefetchData.queue st').
Proof.
  intros Hinv Hstep j wj Hj. destruct l as [i|].
  - apply step_work in Hstep as (w & w' & q' & Hw & Hrun & ->);
      simpl in *.
    assert (Hgrow : forall l : list Dp,
              l `sublist_of` PrefetchData.out st
                             ++ Queue.items (PrefetchData.queue st) ->
              l `sublist_of` PrefetchData.out st ++ Queue.items q').
    { intros l Hl.
      apply run_queue in Hrun as [[[-> _]|[_ ->]]|(dp & _ & _ & -> & _)];
        [done | done |].
      simpl. rewrite app_assoc. by apply sublist_inserts_r. }
    destruct (decide (i = j)) as [->|Hne].
    + rewrite list_lookup_insert_eq in Hj by (by eapply lookup_lt_Some).
      inversion Hj; subst wj. specialize (Hinv _ _ Hw).
      apply run_queue in Hrun
        as [[[-> ->]|[-> ->]]|(dp & _ & _ & -> & ->)]; simpl.
      * done.
      * by rewrite puts_app, app_nil_r.
      * rewrite puts_app, app_assoc. by apply sublist_app.
    + rewrite list_lookup_insert_ne in Hj by done. eauto.
  - apply step_pull in Hstep
      as (_ & _ & _ & Hws & [(_ & -> & _ & -> & _)
                            |(dp & _ & Hits & _ & _ & -> & _)]);
      rewrite Hws in Hj; specialize (Hinv _ _ Hj); [done|].
    rewrite Hits in Hinv. by rewrite <- app_assoc.
Qed.

Lemma init_all_puts hp ds nr_prefetch nr_proc :
  PrefetchData.all_puts
    (PrefetchData.workers (PrefetchData.__init__ hp ds nr_prefetch nr_proc))
  = [].
Proof.
  simpl. unfold PrefetchData.all_puts.
  induction (Z.to_nat nr_proc) as [|n IH]; simpl; done.
Qed.

(** X1: whatever the number of workers and the schedule, the data points
    the coordinator has yielded and those waiting in the queue are, up to
    their order, exactly the data points the workers have put: the queue
    loses none, invents none and repeats none. *)
Theorem transport_loses_nothing hp ds nr_prefetch nr_proc sched st :
  PrefetchData.exec sched (PrefetchData.__init__ hp ds nr_prefetch nr_proc)
  = Some st ->
  PrefetchData.out st ++ Queue.items (PrefetchData.queue st)
  ≡ₚ PrefetchData.all_puts (PrefetchData.workers st).
Proof.
  intros He.
  eapply (exec_invariant
            (fun st => PrefetchData.out st
                       ++ Queue.items (PrefetchData.queue st)
                       ≡ₚ PrefetchData.all_puts (PrefetchData.workers st)));
    [apply step_loses_nothing | | done].
  by rewrite init_all_puts.
Qed.

(** X2: with any number of workers the coordinator yields the data points
    of each single worker in the order that worker has put them: what a
    worker has put is a subsequence of what has been yielded followed by
    what waits in the queue. *)
Theorem each_worker_order_is_kept hp ds nr_prefetch nr_proc sched st i w :
  PrefetchData.exec sched (PrefetchData.__init__ hp ds nr_prefetch nr_proc)
  = Some st ->
  PrefetchData.workers st !! i = Some w ->
  PrefetchProcess.puts (PrefetchProcess.log w)
  `sublist_of` PrefetchData.out st ++ Queue.items (PrefetchData.queue st).
Proof.
  intros He. revert i w.
  eapply (exec_invariant
            (fun st => forall i w,
               PrefetchData.workers st !! i = Some w ->
               PrefetchProcess.puts (PrefetchProcess.log w)
               `sublist_of` PrefetchData.out st
                            ++ Queue.items (PrefetchData.queue st)));
    [apply step_keeps_order | | done].
  intros i w Hw. simpl in Hw. rewrite list_lookup_fmap in Hw.
  destruct (replicate _ _ !! i); inversion Hw; subst. simpl.
  apply sublist_nil_l.
Qed.

(** X3: with a positive size [N] and a positive [nr_prefetch], the workers
    all together never get to put more than [N + nr_prefetch] data points:
    once the generator has stopped and the queue is full they are blocked. *)
Theorem workers_put_at_most hp ds nr_prefetch nr_proc N sched st :
  ds_size (hp ds) = Some N ->
  0 < N ->
  0 < nr_prefetch ->
  PrefetchData.exec sched (PrefetchData.__init__ hp ds nr_prefetch nr_proc)
  = Some st ->
  Z.of_nat (length (PrefetchData.all_puts (PrefetchData.workers st)))
  <= N + nr_prefetch.
Proof.
  intros HN Hpos Hpre He.
  assert (Hperm : PrefetchData.out st ++ Queue.items (PrefetchData.queue st)
                  ≡ₚ PrefetchData.all_puts (PrefetchData.workers st)).
  { eapply (exec_invariant
              (fun st => PrefetchData.out st
                         ++ Queue.items (PrefetchData.queue st)
                         ≡ₚ PrefetchData.all_puts (PrefetchData.workers st)));
      [apply step_loses_nothing | | done].
    by rewrite init_all_puts. }
  assert (Hb : PrefetchData.bounded st).
  { eapply (exec_invariant PrefetchData.bounded);
      [apply step_bounded | | done].
    unfold PrefetchData.bounded; simpl. lia. }
  pose proof (exec_counted _ _ _ _ _ _ He) as ((Hk & Hle & _) & Hsize).
  apply exec_frame in He as (_ & _ & Hmax & _). simpl in Hmax.
  unfold PrefetchData.bounded in Hb. rewrite Hmax in Hb.
  rewrite Hsize, HN in Hle.
  rewrite <- Hperm, length_app. lia.
Qed.

(** X4: as long as the generator has not stopped, a coordinator with at
    least one worker is never stuck: if the queue is full the consumer can
    pull, and if it is not a worker can make its next step. *)
Theorem never_stuck_before_stop hp ds nr_prefetch nr_proc sched st :
  0 < nr_proc ->
  PrefetchData.exec sched (PrefetchData.__init__ hp ds nr_prefetch nr_proc)
  = Some st ->
  PrefetchData.stopped st = false ->
  (Queue.full (PrefetchData.queue st) = true ->
   exists st', PrefetchData.step PrefetchData.Pull st = Some st') /\
  (Queue.full (PrefetchData.queue st) = false ->
   forall i, (i < Z.to_nat nr_proc)%nat ->
     exists st', PrefetchData.step (PrefetchData.Work i) st = Some st') /\
  exists l st', PrefetchData.step l st = Some st'.
Proof.
  intros Hn He Hns.
  assert (Hpull : Queue.full (PrefetchData.queue st) = true ->
                  exists st',
                    PrefetchData.step PrefetchData.Pull st = Some st').
  { intros Hfull. unfold PrefetchData.step. rewrite Hns.
    unfold PrefetchData.get_data, Queue.get.
    destruct (_ && _); [eauto|].
    unfold Queue.full in Hfull.
    destruct (Queue.items (PrefetchData.queue st)) as [|dp its]; [|eauto].
    simpl in Hfull. apply andb_true_iff in Hfull as [Hlt Hle].
    apply Z.ltb_lt in Hlt. apply Z.leb_le in Hle. simpl in Hle. lia. }
  assert (Hwork : Queue.full (PrefetchData.queue st) = false ->
                  forall i, (i < Z.to_nat nr_proc)%nat ->
                    exists st',
                      PrefetchData.step (PrefetchData.Work i) st = Some st').
  { intros Hfull i Hi.
    assert (Hw0 : PrefetchData.workers
                    (PrefetchData.__init__ hp ds nr_prefetch nr_proc) !! i
                  = Some (PrefetchProcess.start (hp ds))).
    { simpl. rewrite list_lookup_fmap. by rewrite lookup_replicate_2. }
    destruct (exec_turns sched _ st i _ He Hw0) as (w & Hw & Ha).
    assert (Hr : PrefetchProcess.reachable (hp ds) w).
    { eapply alone_reachable; [apply PrefetchProcess.reach_start|done]. }
    apply reachable_log in Hr as (Hret & _).
    destruct (run_enabled w _ Hret Hfull) as (w' & q' & Hrun).
    unfold PrefetchData.step. rewrite Hw. simpl. rewrite Hrun. simpl. eauto. }
  split_and!; [done | done |].
  destruct (Queue.full (PrefetchData.queue st)) eqn:Hfull.
  - destruct (Hpull eq_refl) as [st' Hs]. eauto.
  - destruct (Hwork eq_refl 0%nat) as [st' Hs]; [lia|]. eauto.
Qed.

(** X5: a coordinator built with [nr_proc <= 0] has no worker, and nothing
    can happen to it: its first pull blocks for good, whatever size the data
    flow reports, so the only schedule it can run is the empty one. *)
Theorem no_worker_no_data hp ds nr_prefetch nr_proc :
  nr_proc <= 0 ->
  let st0 := PrefetchData.__init__ hp ds nr_prefetch nr_proc in
  PrefetchData.workers st0 = [] /\
  (forall l, PrefetchData.step l st0 = None) /\
  (forall sched st, PrefetchData.exec sched st0 = Some st ->
                    sched = [] /\ st = st0).
Proof.
  intros Hn st0.
  assert (Hws : PrefetchData.workers st0 = []).
  { unfold st0; simpl. replace (Z.to_nat nr_proc) with 0%nat by lia. done. }
  assert (Hstep : forall l, PrefetchData.step l st0 = None).
  { intros [i|]; unfold PrefetchData.step.
    - by rewrite Hws.
    - unfold st0; simpl. unfold PrefetchData.get_data.
      replace ((0 <? _) && (_ <=? 0)) with false; [done|].
      symmetry. apply andb_false_iff. lia. }
  split_and!; [done | done |].
  intros [|l sched] st He; simpl in He.
  - by inversion He.
  - by rewrite Hstep in He.
Qed.

End many_workers.

(** ** The two workers, pass after pass *)

Section passes.
Context {Dp St Msg : Type} `{DataFlow Dp St} (dumps : Dp -> Msg)
        (loads : Msg -> Dp).

Lemma alone_add n : forall m (w : PrefetchProcess.t Dp St),
  PrefetchData.alone (n + m) w
  = PrefetchData.alone n w ≫= PrefetchData.alone m.
Proof.
  induction n as [|n IH]; intros m w; [done|].
  cbn [Nat.add PrefetchData.alone].
  destruct (PrefetchProcess.run w (Queue.new 0)) as [[w' q']|]; [|done].
  simpl. apply IH.
Qed.

Lemma alone_S n (w w' : PrefetchProcess.t Dp St) q' :
  PrefetchProcess.run w (Queue.new 0) = Some (w', q') ->
  PrefetchData.alone (S n) w = PrefetchData.alone n w'.
Proof. intros Hrun. cbn [PrefetchData.alone]. by rewrite Hrun. Qed.

(** A worker nothing blocks goes through one pass in two steps for each
    data point and one more to find the generator exhausted. *)
Lemma alone_pass s dps s' :
  one_pass s dps s' ->
  forall lg,
    PrefetchData.alone (2 * length dps + 1)
      {| PrefetchProcess.ds := s;
         PrefetchProcess.at_ := PrefetchProcess.AtFor;
         PrefetchProcess.log := lg |}
    = Some {| PrefetchProcess.ds := s';
              PrefetchProcess.at_ := PrefetchProcess.AtWhile;
              PrefetchProcess.log := lg ++ map PrefetchProcess.EvPut dps |}.
Proof.
  induction 1 as [s s' Hnext|s dp s1 dps s' Hnext Hone IH]; intros lg.
  - change (2 * length (@nil Dp) + 1)%nat with 1%nat.
    erewrite alone_S;
      [|unfold PrefetchProcess.run; simpl; rewrite Hnext; reflexivity].
    simpl. by rewrite app_nil_r.
  - replace (2 * length (dp :: dps) + 1)%nat
      with (S (S (2 * length dps + 1))) by (simpl; lia).
    erewrite alone_S;
      [|unfold PrefetchProcess.run; simpl; rewrite Hnext; reflexivity].
    erewrite alone_S; [|reflexivity].
    rewrite IH. simpl. by rewrite <- app_assoc.
Qed.

Lemma alone_passes s dpss s' :
  passes s dpss s' ->
  forall lg,
    PrefetchData.alone
      (sum_list_with (fun dps : list Dp => 2 * length dps + 2)%nat dpss)
      {| PrefetchProcess.ds := s;
         PrefetchProcess.at_ := PrefetchProcess.AtWhile;
         PrefetchProcess.log := lg |}
    = Some {| PrefetchProcess.ds := s';
              PrefetchProcess.at_ := PrefetchProcess.AtWhile;
              PrefetchProcess.log :=
                lg ++ map PrefetchProcess.EvPut (concat dpss) |}.
Proof.
  induction 1 as [s|s dps s1 dpss s2 Hone Hrest IH]; intros lg.
  - simpl. by rewrite app_nil_r.
  - cbn [sum_list_with concat].
    replace (2 * length dps + 2 + sum_list_with _ dpss)%nat
      with (S ((2 * length dps + 1)
               + sum_list_with
                   (fun dps : list Dp => 2 * length dps + 2)%nat dpss))
      by lia.
    erewrite alone_S; [|reflexivity].
    rewrite alone_add, (alone_pass _ _ _ Hone). simpl.
    rewrite IH. by rewrite map_app, app_assoc.
Qed.

(** X6: a worker over the queue that nothing blocks resets its data flow
    once and then puts pass after pass, in order: each pass opens a new
    generator on the state the pass before has left, with no reset in
    between, and after the passes [dpss] the history of the worker is the
    reset followed by the puts of all their data points. *)
Theorem worker_replays_passes s0 dpss s' :
  passes (ds_reset_state s0) dpss s' ->
  PrefetchData.alone
    (1 + sum_list_with (fun dps : list Dp => 2 * length dps + 2)%nat dpss)
    (PrefetchProcess.start s0)
  = Some {| PrefetchProcess.ds := s';
            PrefetchProcess.at_ := PrefetchProcess.AtWhile;
            PrefetchProcess.log :=
              PrefetchProcess.EvReset
                :: map PrefetchProcess.EvPut (concat dpss) |}.
Proof.
  intros Hp. change (1 + ?n)%nat with (S n).
  erewrite alone_S; [|reflexivity].
  by rewrite (alone_passes _ _ _ Hp).
Qed.

Lemma sends_app (l1 l2 : list (PrefetchProcessZMQ.event Msg)) :
  PrefetchProcessZMQ.sends (l1 ++ l2)
  = PrefetchProcessZMQ.sends l1 ++ PrefetchProcessZMQ.sends l2.
Proof. apply omap_app. Qed.

(** Step by step, a worker over ZeroMQ does what a worker over the queue
    does. *)
Lemma zmq_worker_alike s name (w : PrefetchProcessZMQ.t Dp St Msg) :
  PrefetchProcessZMQ.reachable dumps s name w ->
  exists wq, PrefetchProcess.reachable s wq /\
             PrefetchProcessZMQ.alike dumps w wq.
Proof.
  induction 1 as [|w p w' p' Hr (wq & Hrq & Hds & Hsent & Hat) Hrun].
  - exists (PrefetchProcess.start s). split; [constructor|]. by split_and!.
  - unfold PrefetchProcessZMQ.alike in *.
    destruct wq as [qds qat qlog].
    run_zmq_inv Hrun w; subst.
    + eexists. split.
      * eapply PrefetchProcess.reach_step with (q := Queue.new 0);
          [exact Hrq | reflexivity].
      * simpl. rewrite sends_app, puts_app, Hsent; simpl.
        by rewrite !app_nil_r.
    + by eexists.
    + by eexists.
    + by eexists.
    + eexists. split; [exact Hrq|]. simpl.
      rewrite sends_app, Hsent; simpl. by rewrite app_nil_r.
    + eexists. split.
      * eapply PrefetchProcess.reach_step with (q := Queue.new 0);
          [exact Hrq | reflexivity].
      * done.
    + eexists. split.
      * eapply PrefetchProcess.reach_step with (q := Queue.new 0);
          [exact Hrq|].
        unfold PrefetchProcess.run; simpl.
        match goal with Hn : ds_next _ = _ |- _ => rewrite Hn end.
        reflexivity.
      * done.
    + eexists. split.
      * eapply PrefetchProcess.reach_step with (q := Queue.new 0);
          [exact Hrq|].
        unfold PrefetchProcess.run; simpl.
        match goal with Hn : ds_next _ = _ |- _ => rewrite Hn end.
        reflexivity.
      * done.
    + eexists. split.
      * eapply PrefetchProcess.reach_step with (q := Queue.new 0);
          [exact Hrq | reflexivity].
      * simpl. rewrite sends_app, puts_app, Hsent, map_app. done.
Qed.

(** X7: [PrefetchProcessZMQ] works the same as [PrefetchProcess]: every
    state a worker over ZeroMQ reaches is matched by a state a worker over
    the queue reaches on the same data flow, with the same state of the
    data flow, at the same place in the loop, and such that the messages
    sent are the serialized forms, in order, of the data points put. *)
Theorem zmq_worker_works_the_same s name (w : PrefetchProcessZMQ.t Dp St Msg) :
  PrefetchProcessZMQ.reachable dumps s name w ->
  exists wq,
    PrefetchProcess.reachable s wq /\
    PrefetchProcessZMQ.ds w = PrefetchProcess.ds wq /\
    PrefetchProcessZMQ.sends (PrefetchProcessZMQ.log w)
    = map dumps (PrefetchProcess.puts (PrefetchProcess.log wq)) /\
    (forall dp, PrefetchProcessZMQ.at_ w = PrefetchProcessZMQ.AtSend dp <->
                PrefetchProcess.at_ wq = PrefetchProcess.AtPut dp) /\
    (PrefetchProcessZMQ.at_ w = PrefetchProcessZMQ.AtFor <->
     PrefetchProcess.at_ wq = PrefetchProcess.AtFor).
Proof.
  intros Hr. destruct (zmq_worker_alike s name w Hr) as (wq & Hrq & Ha).
  exists wq. destruct Ha as (Hds & Hsent & Hat).
  split_and!; [done | done | done | |].
  - intros dp. destruct (PrefetchProcessZMQ.at_ w); rewrite ?Hat;
      split; intros Heq; try done; by inversion Heq.
  - destruct (PrefetchProcessZMQ.at_ w); rewrite ?Hat;
      split; intros Heq; try done.
Qed.

(** X8: when [loads] undoes [dumps], the messages of a single worker over
    ZeroMQ decode to its first pass, in order: decoded, the first messages
    sent are the beginning of the pass, and once the worker has sent as many
    messages as the pass is long, a generator of [get_data] with that size
    yields exactly the pass from them and stops. *)
Theorem zmq_single_worker_yields_the_pass s0 name dps
        (w : PrefetchProcessZMQ.t Dp St Msg) :
  (forall dp, loads (dumps dp) = dp) ->
  direct_pass s0 dps ->
  PrefetchProcessZMQ.reachable dumps s0 name w ->
  let ms := PrefetchProcessZMQ.sends (PrefetchProcessZMQ.log w) in
  take (length dps) (map loads ms) `prefix_of` dps /\
  ((0 < length dps <= length ms)%nat ->
   forall extra,
     PrefetchDataZMQ.pull loads (length dps + S extra)
                          (Z.of_nat (length dps)) 0 ms
     = (dps, Z.of_nat (length dps), drop (length dps) ms, true)).
Proof.
  intros Hrt Hpass Hr ms.
  destruct (zmq_worker_alike s0 name w Hr) as (wq & Hrq & _ & Hsent & _).
  assert (Hdec : map loads ms
                 = PrefetchProcess.puts (PrefetchProcess.log wq)).
  { unfold ms. rewrite Hsent, map_map.
    rewrite <- (map_id (PrefetchProcess.puts _)) at 2.
    apply map_ext. intros dp. apply Hrt. }
  assert (Hpre : take (length dps) (map loads ms) `prefix_of` dps).
  { rewrite Hdec.
    destruct (first_pass_order s0 dps wq Hpass Hrq) as [Hp|[more ->]].
    - etrans; [apply prefix_take|done].
    - by rewrite take_app_length. }
  split; [done|]. intros [Hpos Hlen] extra.
  rewrite pull_zmq_stops by lia. do 3 f_equal.
  change (map loads (take (length dps) ms))
    with (loads <$> take (length dps) ms).
  rewrite fmap_take. apply prefix_length_eq; [done|].
  rewrite length_take, length_fmap. lia.
Qed.

End passes.

(** ** The two generators *)

Section generators.
Context {Dp Msg : Type} (loads : Msg -> Dp).

(** X9: [get_data] of [PrefetchDataZMQ] works the same as [get_data] of
    [PrefetchData]: pulling from the messages that have arrived gives what
    pulling from a queue of the decoded messages gives, the same data
    points, the same counter and the same end, and leaves the messages whose
    decoded forms are left in the queue. *)
Theorem get_data_zmq_works_the_same n : forall size k m (inbox : list Msg),
  PrefetchData.pull n size k
    {| Queue.maxsize := m; Queue.items := map loads inbox |}
  = let '(dps, k', inbox', stop) :=
      PrefetchDataZMQ.pull loads n size k inbox in
    (dps, k', {| Queue.maxsize := m; Queue.items := map loads inbox' |},
     stop).
Proof.
  induction n as [|n IH]; intros size k m inbox; [done|].
  cbn [PrefetchData.pull PrefetchDataZMQ.pull].
  unfold PrefetchData.get_data, PrefetchDataZMQ.get_data, Queue.get.
  destruct ((0 <? size) && (size <=? k)); [done|].
  destruct inbox as [|msg inbox]; [done|]. simpl.
  rewrite IH.
  by destruct (PrefetchDataZMQ.pull loads n size (k + 1) inbox)
    as [[[dps k'] inbox'] stop].
Qed.

(** X10: the counter belongs to the generator, not to the coordinator: a
    second call of [get_data()] counts from 0 again and reads on where the
    first has stopped.  With a size [N > 0] and [2 N] data points delivered,
    two generators run one after the other yield the first [N] and then the
    next [N]. *)
Theorem get_data_twice N extra1 extra2 m (its : list Dp) :
  0 < N ->
  (2 * Z.to_nat N <= length its)%nat ->
  exists q1,
    PrefetchData.pull (Z.to_nat N + S extra1) N 0
                      {| Queue.maxsize := m; Queue.items := its |}
    = (take (Z.to_nat N) its, N, q1, true) /\
    PrefetchData.pull (Z.to_nat N + S extra2) N 0 q1
    = (take (Z.to_nat N) (drop (Z.to_nat N) its), N,
       {| Queue.maxsize := m;
          Queue.items := drop (2 * Z.to_nat N) its |}, true).
Proof.
  intros HN Hlen. eexists. split.
  - apply pull_stops; [done | lia | lia].
  - rewrite pull_stops; [|done|lia|rewrite length_drop; lia].
    rewrite drop_drop.
    by replace (2 * Z.to_nat N)%nat with (Z.to_nat N + Z.to_nat N)%nat by lia.
Qed.

End generators.

(** ** The worker over ZeroMQ and its coordinator *)

Section wiring.
Import PrefetchDataZMQ.
Context {Dp St Msg : Type} `{DataFlow Dp St} (dumps : Dp -> Msg).

(** X11: a worker over ZeroMQ sets up its socket once, after the reset and
    before its loop: its history is empty before the reset, just the reset
    while it creates the context and the socket and sets the mark, and from
    the loop on the reset, one connect to [conn_name], and sends only.  The
    socket has ZeroMQ's default mark until [set_hwm(1)], and is connected to
    [conn_name] and nothing else once the loop runs. *)
Theorem zmq_worker_connects_once s name (w : PrefetchProcessZMQ.t Dp St Msg) :
  PrefetchProcessZMQ.reachable dumps s name w ->
  PrefetchProcessZMQ.conn_name w = name /\
  match PrefetchProcessZMQ.at_ w with
  | PrefetchProcessZMQ.AtReset =>
      PrefetchProcessZMQ.log w = [] /\
      PrefetchProcessZMQ.sock w = None
  | PrefetchProcessZMQ.AtContext | PrefetchProcessZMQ.AtSocket =>
      PrefetchProcessZMQ.log w = [PrefetchProcessZMQ.EvReset] /\
      PrefetchProcessZMQ.sock w = None
  | PrefetchProcessZMQ.AtSetHwm =>
      PrefetchProcessZMQ.log w = [PrefetchProcessZMQ.EvReset] /\
      PrefetchProcessZMQ.sock w
      = Some {| PrefetchProcessZMQ.hwm := PrefetchProcessZMQ.default_hwm;
                PrefetchProcessZMQ.peer := None |}
  | PrefetchProcessZMQ.AtConnect =>
      PrefetchProcessZMQ.log w = [PrefetchProcessZMQ.EvReset] /\
      PrefetchProcessZMQ.sock w
      = Some {| PrefetchProcessZMQ.hwm := 1;
                PrefetchProcessZMQ.peer := None |}
  | PrefetchProcessZMQ.AtWhile | PrefetchProcessZMQ.AtFor
  | PrefetchProcessZMQ.AtSend _ =>
      (exists dps,
         PrefetchProcessZMQ.log w
         = PrefetchProcessZMQ.EvReset
             :: PrefetchProcessZMQ.EvConnect name
             :: map (fun dp => PrefetchProcessZMQ.EvSend (dumps dp)) dps) /\
      PrefetchProcessZMQ.sock w
      = Some {| PrefetchProcessZMQ.hwm := 1;
                PrefetchProcessZMQ.peer := Some name |}
  | PrefetchProcessZMQ.Returned => False
  end.
Proof.
  induction 1 as [|w p w' p' Hr [Hname Hinv] Hrun].
  - by simpl.
  - run_zmq_inv Hrun w; split; try done;
      try (destruct Hinv as [-> ->]; done);
      try (destruct Hinv as [[dps ->] ->]; split; [by exists dps|done]).
    + destruct Hinv as [-> Hso]. rewrite Hso. simpl. split; [|done].
      by exists [].
    + destruct Hinv as [[dps ->] Hso]. split; [|done].
      exists (dps ++ [dp]). by rewrite map_app.
Qed.

(** Whatever a worker over ZeroMQ connects to is its [conn_name]. *)
Lemma reachable_zmq_connect s name (w : PrefetchProcessZMQ.t Dp St Msg) :
  PrefetchProcessZMQ.reachable dumps s name w ->
  PrefetchProcessZMQ.conn_name w = name /\
  forall n, PrefetchProcessZMQ.EvConnect n ∈ PrefetchProcessZMQ.log w ->
            n = name.
Proof.
  induction 1 as [|w p w' p' Hr [Hname Hinv] Hrun].
  - split; [done|]. intros n Hn. inversion Hn.
  - run_zmq_inv Hrun w; split; try done; intros n Hn;
      try (by apply Hinv);
      apply elem_of_app in Hn as [Hn|Hn]; try (by apply Hinv);
      apply list_elem_of_singleton in Hn; by inversion Hn.
Qed.

(** X12: the coordinator and its workers agree on the address.  When the
    constructor succeeds it has bound the address made from [pipedir] and
    the identifier, once and before starting any worker; every worker it has
    started begins [run] with that address as its [conn_name], and whatever
    such a worker connects to later is that address. *)
Theorem workers_connect_to_the_bound_address
        e (hp : nat -> St) ds nr_proc pipedir evs
        (sys : system Dp St Msg) :
  __init__ e hp ds nr_proc pipedir = (evs, inr sys) ->
  let name := pipename (self sys) in
  name = make_pipename pipedir (uuid1 e) /\
  evs = [EvContext; EvSocket; EvSetHwm 5; EvBind name]
        ++ map EvStart (seq 0 (Z.to_nat nr_proc)) ++ [EvAtexit] /\
  (forall h, h ∈ procs (self sys) ->
             h_conn_name h = name /\ h_status h = Alive) /\
  (forall w0, w0 ∈ workers sys ->
     w0 = PrefetchProcessZMQ.start (hp ds) name) /\
  (forall w, PrefetchProcessZMQ.reachable dumps (hp ds) name w ->
     forall n, PrefetchProcessZMQ.EvConnect n ∈ PrefetchProcessZMQ.log w ->
               n = name).
Proof.
  rewrite init_eq.
  destruct (isdir e pipedir); [|done].
  destruct (bind_ok e _); [|done].
  intros Hi; inversion Hi; subst; simpl. split_and!; try done.
  - intros h [h0 [-> Hh]]%list_elem_of_fmap.
    apply elem_of_replicate_inv in Hh. by subst.
  - intros w0 [h0 [-> Hh]]%list_elem_of_fmap.
    apply elem_of_replicate_inv in Hh. by subst.
  - intros w Hr. by apply reachable_zmq_connect in Hr as [_ Hc].
Qed.

(** X13: when [pipedir] is a directory but [bind] raises, the constructor
    raises that error having created the context and the socket and set the
    mark: no [PrefetchProcessZMQ] has been started and nothing has been
    registered for the exit. *)
Theorem init_bind_failure e (hp : nat -> St) ds nr_proc pipedir :
  isdir e pipedir = true ->
  bind_ok e (make_pipename pipedir (uuid1 e)) = false ->
  __init__ (Msg := Msg) e hp ds nr_proc pipedir
  = ([EvContext; EvSocket; EvSetHwm 5], inl ZMQError) /\
  (forall i, EvStart i ∉ (__init__ (Msg := Msg) e hp ds nr_proc pipedir).1) /\
  EvAtexit ∉ (__init__ (Msg := Msg) e hp ds nr_proc pipedir).1.
Proof.
  intros Hdir Hbind. rewrite init_eq, Hdir, Hbind. simpl.
  split_and!; [done | intros i Hin | intros Hin];
    repeat (apply elem_of_cons in Hin as [Hin|Hin]; [done|]);
    inversion Hin.
Qed.

(** X14: closing a coordinator the constructor has just built.  Whatever
    the logger does, [__del__] destroys the context once, with linger 0, and
    then terminates the [nr_proc] processes one by one in the order they
    were started; the lines it logs, if any, come first and last. *)
Theorem del_after_init e (hp : nat -> St) ds nr_proc pipedir evs
        (sys : system Dp St Msg) e' :
  __init__ e hp ds nr_proc pipedir = (evs, inr sys) ->
  (__del__ e' (self sys)).1
  = (if logger_ok e' "Prefetch process exiting..."
     then [EvLog "Prefetch process exiting..."] else [])
    ++ [EvDestroy 0]
    ++ map EvTerminate (seq 0 (Z.to_nat nr_proc))
    ++ (if logger_ok e' "Prefetch process exited."
        then [EvLog "Prefetch process exited."] else []).
Proof.
  intros Hi. rewrite del_eq by (by eapply init_started). simpl.
  rewrite init_eq in Hi.
  destruct (isdir e pipedir); [|done].
  destruct (bind_ok e _); [|done].
  inversion Hi; subst; simpl.
  by rewrite length_map, length_replicate.
Qed.

End wiring.

(** ** The directory in the address *)

Section pipedir.
Import PrefetchDataZMQ.
Local Open Scope string_scope.

Lemma rstrip_snoc c s : rstrip c (s ++ String c "") = rstrip c s.
Proof.
  induction s as [|a s IH]; simpl.
  - by rewrite Ascii.eqb_refl.
  - by rewrite IH.
Qed.

Lemma rstrip_no_trailing c s : forall t, rstrip c s <> t ++ String c "".
Proof.
  induction s as [|a s IH]; intros t; simpl.
  - by destruct t.
  - destruct (rstrip c s) as [|b r] eqn:Hr.
    + destruct (Ascii.eqb_spec a c) as [->|Hne].
      * by destruct t.
      * destruct t as [|d [|d' t]]; simpl; congruence.
    + destruct t as [|d t]; simpl; [congruence|].
      intros Heq. inversion Heq; subst. by apply (IH t).
Qed.

Lemma rstrip_id c s :
  (forall t, s <> t ++ String c "") -> rstrip c s = s.
Proof.
  induction s as [|a s IH]; intros Hend; [done|]. simpl.
  destruct s as [|b s].
  - simpl. destruct (Ascii.eqb_spec a c) as [->|Hne]; [|done].
    by destruct (Hend "").
  - rewrite IH; [done|].
    intros t Heq. apply (Hend (String a t)). simpl. by rewrite Heq.
Qed.

(** X15: slashes at the end of [pipedir] do not count: [pipedir] with one
    more slash gives the same address, the directory in the address never
    ends in a slash, and a [pipedir] that does not end in one is in the
    address as it is, between ["ipc://"] and ["/dataflow-pipe-"]. *)
Theorem pipedir_trailing_slashes d u :
  make_pipename (d ++ "/") u = make_pipename d u /\
  (forall t, rstrip "/" d <> t ++ "/") /\
  ((forall t, d <> t ++ "/") ->
   make_pipename d u
   = "ipc://" ++ d ++ "/dataflow-pipe-" ++ substring 0 6 (uuid.str u)).
Proof.
  split_and!.
  - unfold make_pipename. by rewrite rstrip_snoc.
  - apply rstrip_no_trailing.
  - intros Hend. unfold make_pipename. rewrite (rstrip_id _ _ Hend).
    simpl. do 6 f_equal.
    induction d as [|a d IH]; simpl; [done|]. f_equal. apply IH.
    intros t Heq. apply (Hend (String a t)). simpl. by rewrite Heq.
Qed.

End pipedir.

(** ** More examples *)

Lemma busy_run_exec :
  PrefetchData.exec busy_schedule (PrefetchData.__init__ five_heap 0%nat 2 2)
  = Some busy_run.
Proof. reflexivity. Qed.

Lemma five_two_passes :
  passes (ds_reset_state five) [[0; 1; 2; 3; 4]; [0; 1; 2; 3; 4]] five.
Proof.
  eapply passes_more; [by apply (pass_of_sound 6)|].
  eapply passes_more; [by apply (pass_of_sound 6)|].
  apply passes_none.
Qed.

Lemma zmq_alone_reachable {Dp St Msg} `{DataFlow Dp St} (dumps : Dp -> Msg)
      n : forall s name (w w' : PrefetchProcessZMQ.t Dp St Msg),
  PrefetchProcessZMQ.reachable dumps s name w ->
  PrefetchProcessZMQ.alone dumps n w = Some w' ->
  PrefetchProcessZMQ.reachable dumps s name w'.
Proof.
  induction n as [|n IH]; intros s name w w' Hr Ha; simpl in Ha.
  - by inversion Ha; subst.
  - destruct (PrefetchProcessZMQ.run dumps w []) as [[w1 p1]|] eqn:Hrun;
      [|done].
    simpl in Ha. eapply IH; [|done].
    by eapply PrefetchProcessZMQ.reach_step.
Qed.

Lemma after_first_send_reachable :
  PrefetchProcessZMQ.reachable (@id Z) five
    "ipc:///tmp/dataflow-pipe-5a7b12" after_first_send.
Proof.
  apply (zmq_alone_reachable (@id Z) 8 _ _ _ _
           (PrefetchProcessZMQ.reach_start _ _ _)).
  vm_compute. reflexivity.
Qed.

Lemma transport_loses_nothing_witness :
  PrefetchData.exec busy_schedule (PrefetchData.__init__ five_heap 0%nat 2 2)
  = Some busy_run /\
  PrefetchData.out busy_run = [0; 0] /\
  Queue.items (PrefetchData.queue busy_run) = [1] /\
  PrefetchData.out busy_run ++ Queue.items (PrefetchData.queue busy_run)
  ≡ₚ PrefetchData.all_puts (PrefetchData.workers busy_run).
Proof.
  split; [exact busy_run_exec|]. split; [reflexivity|].
  split; [reflexivity|].
  exact (transport_loses_nothing five_heap 0%nat 2 2 busy_schedule busy_run
                                 busy_run_exec).
Defined.

Lemma each_worker_order_is_kept_witness :
  PrefetchData.exec busy_schedule (PrefetchData.__init__ five_heap 0%nat 2 2)
  = Some busy_run /\
  exists w,
    PrefetchData.workers busy_run !! 0%nat = Some w /\
    PrefetchProcess.puts (PrefetchProcess.log w) = [0; 1] /\
    PrefetchProcess.puts (PrefetchProcess.log w)
    `sublist_of` PrefetchData.out busy_run
                 ++ Queue.items (PrefetchData.queue busy_run).
Proof.
  split; [exact busy_run_exec|].
  eexists. split; [reflexivity|]. split; [reflexivity|].
  exact (each_worker_order_is_kept five_heap 0%nat 2 2 busy_schedule busy_run
                                   0%nat _ busy_run_exec eq_refl).
Defined.

Lemma workers_put_at_most_witness :
  ds_size (five_heap 0%nat) = Some 5 /\ 0 < 5 /\ 0 < 2 /\
  PrefetchData.exec busy_schedule (PrefetchData.__init__ five_heap 0%nat 2 2)
  = Some busy_run /\
  Z.of_nat (length (PrefetchData.all_puts (PrefetchData.workers busy_run)))
  <= 5 + 2.
Proof.
  split; [reflexivity|]. split; [lia|]. split; [lia|].
  split; [exact busy_run_exec|].
  exact (workers_put_at_most five_heap 0%nat 2 2 5 busy_schedule busy_run
                             eq_refl ltac:(lia) ltac:(lia) busy_run_exec).
Defined.

Lemma never_stuck_before_stop_witness :
  0 < 2 /\
  PrefetchData.exec busy_schedule (PrefetchData.__init__ five_heap 0%nat 2 2)
  = Some busy_run /\
  PrefetchData.stopped busy_run = false /\
  exists l st', PrefetchData.step l busy_run = Some st'.
Proof.
  split; [lia|]. split; [exact busy_run_exec|]. split; [reflexivity|].
  exact (proj2 (proj2 (never_stuck_before_stop
                         five_heap 0%nat 2 2 busy_schedule busy_run
                         ltac:(lia) busy_run_exec eq_refl))).
Defined.

Lemma no_worker_no_data_witness :
  0 <= 0 /\
  PrefetchData.workers (PrefetchData.__init__ five_heap 0%nat 2 0) = [] /\
  forall l, PrefetchData.step l (PrefetchData.__init__ five_heap 0%nat 2 0)
            = None.
Proof.
  split; [lia|].
  destruct (no_worker_no_data five_heap 0%nat 2 0 ltac:(lia))
    as (Hws & Hstep & _).
  split; [exact Hws | exact Hstep].
Defined.

Lemma worker_replays_passes_witness :
  passes (ds_reset_state five) [[0; 1; 2; 3; 4]; [0; 1; 2; 3; 4]] five /\
  PrefetchData.alone 25 (PrefetchProcess.start five)
  = Some {| PrefetchProcess.ds := five;
            PrefetchProcess.at_ := PrefetchProcess.AtWhile;
            PrefetchProcess.log :=
              PrefetchProcess.EvReset
                :: map PrefetchProcess.EvPut
                       [0; 1; 2; 3; 4; 0; 1; 2; 3; 4] |}.
Proof.
  split; [exact five_two_passes|].
  exact (worker_replays_passes five _ five five_two_passes).
Defined.

Lemma zmq_worker_works_the_same_witness :
  PrefetchProcessZMQ.reachable (@id Z) five
    "ipc:///tmp/dataflow-pipe-5a7b12" after_first_send /\
  exists wq,
    PrefetchProcess.reachable five wq /\
    PrefetchProcessZMQ.ds after_first_send = PrefetchProcess.ds wq /\
    PrefetchProcessZMQ.sends (PrefetchProcessZMQ.log after_first_send)
    = map id (PrefetchProcess.puts (PrefetchProcess.log wq)).
Proof.
  split; [exact after_first_send_reachable|].
  destruct (zmq_worker_works_the_same (@id Z) five _ after_first_send
              after_first_send_reachable)
    as (wq & Hr & Hds & Hsent & _).
  exists wq. split; [exact Hr|]. split; [exact Hds | exact Hsent].
Defined.

Lemma zmq_single_worker_yields_the_pass_witness :
  (forall dp : Z, id (id dp) = dp) /\
  direct_pass five [0; 1; 2; 3; 4] /\
  PrefetchProcessZMQ.reachable (@id Z) five
    "ipc:///tmp/dataflow-pipe-5a7b12" after_first_send /\
  take 5 (map id (PrefetchProcessZMQ.sends
                    (PrefetchProcessZMQ.log after_first_send)))
  `prefix_of` [0; 1; 2; 3; 4].
Proof.
  split; [reflexivity|]. split; [exact five_direct_pass|].
  split; [exact after_first_send_reachable|].
  exact (proj1 (zmq_single_worker_yields_the_pass
                  (@id Z) (@id Z) five _ [0; 1; 2; 3; 4] after_first_send
                  (fun dp => eq_refl) five_direct_pass
                  after_first_send_reachable)).
Defined.

Lemma get_data_twice_witness :
  0 < 2 /\ (2 * Z.to_nat 2 <= length [1; 2; 3; 4; 5])%nat /\
  exists q1,
    PrefetchData.pull 3 2 0 {| Queue.maxsize := 2;
                               Queue.items := [1; 2; 3; 4; 5] |}
    = ([1; 2], 2, q1, true) /\
    PrefetchData.pull 3 2 0 q1
    = ([3; 4], 2, {| Queue.maxsize := 2; Queue.items := [5] |}, true).
Proof.
  split; [lia|]. split; [simpl; lia|].
  exact (get_data_twice 2 0 0 2 [1; 2; 3; 4; 5]
                        ltac:(lia) ltac:(simpl; lia)).
Defined.

Lemma zmq_worker_connects_once_witness :
  PrefetchProcessZMQ.reachable (@id Z) five
    "ipc:///tmp/dataflow-pipe-5a7b12" after_first_send /\
  PrefetchProcessZMQ.conn_name after_first_send
  = "ipc:///tmp/dataflow-pipe-5a7b12"%string.
Proof.
  split; [exact after_first_send_reachable|].
  exact (proj1 (zmq_worker_connects_once (@id Z) five _ after_first_send
                  after_first_send_reachable)).
Defined.

Lemma workers_connect_to_the_bound_address_witness :
  exists evs sys,
    PrefetchDataZMQ.__init__ (Msg := Z) (example_env true true) five_heap
                             0%nat 2 "/tmp"
    = (evs, inr sys) /\
    PrefetchDataZMQ.pipename (PrefetchDataZMQ.self sys)
    = PrefetchDataZMQ.make_pipename "/tmp" uuid_a.
Proof.
  destruct example_coordinator_built as (evs & sys & Hi & _).
  exists evs, sys. split; [exact Hi|].
  exact (proj1 (workers_connect_to_the_bound_address
                  (@id Z) _ _ _ _ _ _ _ Hi)).
Defined.

Lemma init_bind_failure_witness :
  PrefetchDataZMQ.isdir env_bind_fails "/tmp" = true /\
  PrefetchDataZMQ.bind_ok env_bind_fails
    (PrefetchDataZMQ.make_pipename "/tmp"
       (PrefetchDataZMQ.uuid1 env_bind_fails)) = false /\
  PrefetchDataZMQ.__init__ (Msg := Z) env_bind_fails five_heap 0%nat 2 "/tmp"
  = ([PrefetchDataZMQ.EvContext; PrefetchDataZMQ.EvSocket;
      PrefetchDataZMQ.EvSetHwm 5],
     inl PrefetchDataZMQ.ZMQError).
Proof.
  split; [reflexivity|]. split; [reflexivity|].
  exact (proj1 (init_bind_failure (Msg := Z) env_bind_fails five_heap
                                  0%nat 2 "/tmp" eq_refl eq_refl)).
Defined.

Lemma pipedir_trailing_slashes_witness :
  (forall t, "/tmp"%string <> (t ++ "/")%string) /\
  PrefetchDataZMQ.make_pipename "/tmp" uuid_a
  = "ipc:///tmp/dataflow-pipe-5a7b12"%string.
Proof.
  assert (Hend : forall t, "/tmp"%string <> (t ++ "/")%string)
    by exact (rstrip_no_trailing "/" "/tmp").
  split; [exact Hend|].
  exact (proj2 (proj2 (pipedir_trailing_slashes "/tmp" uuid_a)) Hend).
Defined.

Lemma del_after_init_witness :
  exists evs sys,
    PrefetchDataZMQ.__init__ (Msg := Z) (example_env true true) five_heap
                             0%nat 2 "/tmp"
    = (evs, inr sys) /\
    (PrefetchDataZMQ.__del__ (example_env true false)
                             (PrefetchDataZMQ.self sys)).1
    = [PrefetchDataZMQ.EvDestroy 0; PrefetchDataZMQ.EvTerminate 0;
       PrefetchDataZMQ.EvTerminate 1].
Proof.
  destruct example_coordinator_built as (evs & sys & Hi & _).
  exists evs, sys. split; [exact Hi|].
  exact (del_after_init _ _ _ _ _ _ _ (example_env true false) Hi).
Defined.
